(** * TelegramForwarder: the RSS feed synthesis service

    A shallow embedding of [rss/app/services/feed_generator.py]
    (class [FeedService]) and the properties of its feed construction.

    Python [str] values are sequences of Unicode code points; they are
    modelled as lists of code points so that [len], slicing and
    [str.isspace] mean what they mean in the source.  String literals of
    the source are written as UTF-8 literals and decoded by [u]. *)

From Stdlib Require Import List String Ascii ZArith NArith Lia Bool.
Import ListNotations.
Open Scope Z_scope.

(* ------------------------------------------------------------------ *)
(** ** Python strings *)

Module PyStr.

Definition char := N.
Definition str := list char.

(** UTF-8 decoding of a literal (well-formed literals only; a stray
    continuation byte is kept as it is). *)
Fixpoint utf8_go (need : nat) (acc : N) (bs : list N) : str :=
  match bs with
  | [] => []
  | b :: rest =>
    match need with
    | S k =>
      let acc' := (acc * 64 + N.land b 63)%N in
      match k with
      | O => acc' :: utf8_go O 0%N rest
      | _ => utf8_go k acc' rest
      end
    | O =>
      if (b <? 128)%N then b :: utf8_go O 0%N rest
      else if (b <? 224)%N then utf8_go 1 (N.land b 31) rest
      else if (b <? 240)%N then utf8_go 2 (N.land b 15) rest
      else utf8_go 3 (N.land b 7) rest
    end
  end.

Definition u (s : string) : str :=
  utf8_go O 0%N (map N_of_ascii (list_ascii_of_string s)).

Definition LF : char := 10%N.
Definition SP : char := 32%N.

(** [str.isspace] for one character (also the class [\s] of [re] on
    [str] patterns). *)
Definition isspace (c : char) : bool :=
  ((9 <=? c) && (c <=? 13) || (28 <=? c) && (c <=? 32) ||
   (c =? 133) || (c =? 160) || (c =? 5760) ||
   (8192 <=? c) && (c <=? 8202) || (c =? 8232) || (c =? 8233) ||
   (c =? 8239) || (c =? 8287) || (c =? 12288))%N.

Fixpoint str_eqb (a b : str) : bool :=
  match a, b with
  | [], [] => true
  | x :: a', y :: b' => (x =? y)%N && str_eqb a' b'
  | _, _ => false
  end.

(** [s.startswith(p)] *)
Fixpoint startswith (p s : str) : bool :=
  match p, s with
  | [], _ => true
  | x :: p', y :: s' => (x =? y)%N && startswith p' s'
  | _ :: _, [] => false
  end.

(** [p in s] (substring test) *)
Fixpoint contains (p s : str) : bool :=
  startswith p s ||
  match s with
  | [] => false
  | _ :: s' => contains p s'
  end.

(** [s.lstrip()], [s.rstrip()], [s.strip()] *)
Fixpoint lstrip (s : str) : str :=
  match s with
  | c :: s' => if isspace c then lstrip s' else s
  | [] => []
  end.

Definition rstrip (s : str) : str := rev (lstrip (rev s)).
Definition strip (s : str) : str := rstrip (lstrip s).

(** [s[:n]] and [s[n:]] for [n >= 0] *)
Definition slice_to (n : nat) (s : str) : str := firstn n s.
Definition slice_from (n : nat) (s : str) : str := skipn n s.

(** Left-to-right scan with non-overlapping rewrites: [m] looks at the
    text from the current position and answers with a replacement and
    the (positive) number of characters it consumes.  This is the scan
    of [str.replace] and of [re.sub] for patterns that cannot match the
    empty string and do not look behind. *)
Fixpoint scan (m : str -> option (str * nat)) (skip : nat) (s : str) : str :=
  match s with
  | [] => []
  | c :: t =>
    match skip with
    | S k => scan m k t
    | O =>
      match m s with
      | Some (r, S k) => r ++ scan m k t
      | _ => c :: scan m O t
      end
    end
  end.

(** [s.replace(old, new)] for a non-empty [old] *)
Definition replace (old new s : str) : str :=
  scan (fun t => if startswith old t then Some (new, List.length old) else None) O s.

(** [s.split(sep)] for a non-empty [sep] *)
Fixpoint split_go (sep : str) (skip : nat) (cur : str) (s : str) : list str :=
  match s with
  | [] => [rev cur]
  | c :: t =>
    match skip with
    | S k => split_go sep k cur t
    | O =>
      if startswith sep s
      then rev cur :: split_go sep (pred (List.length sep)) [] t
      else split_go sep O (c :: cur) t
    end
  end.

Definition split (sep s : str) : list str := split_go sep O [] s.

(** [sep.join(parts)] *)
Fixpoint join (sep : str) (parts : list str) : str :=
  match parts with
  | [] => []
  | [p] => p
  | p :: rest => p ++ sep ++ join sep rest
  end.

(** length of the leading run of characters satisfying [f] *)
Fixpoint span_len (f : char -> bool) (s : str) : nat :=
  match s with
  | c :: t => if f c then S (span_len f t) else O
  | [] => O
  end.

(** [str(n)] for an integer *)
Definition digit (d : N) : char := (48 + d)%N.

Fixpoint uint_chars (d : Decimal.uint) : str :=
  match d with
  | Decimal.Nil => []
  | Decimal.D0 r => digit 0 :: uint_chars r
  | Decimal.D1 r => digit 1 :: uint_chars r
  | Decimal.D2 r => digit 2 :: uint_chars r
  | Decimal.D3 r => digit 3 :: uint_chars r
  | Decimal.D4 r => digit 4 :: uint_chars r
  | Decimal.D5 r => digit 5 :: uint_chars r
  | Decimal.D6 r => digit 6 :: uint_chars r
  | Decimal.D7 r => digit 7 :: uint_chars r
  | Decimal.D8 r => digit 8 :: uint_chars r
  | Decimal.D9 r => digit 9 :: uint_chars r
  end.

Definition str_of_Z (z : Z) : str :=
  match Z.to_int z with
  | Decimal.Pos d => uint_chars d
  | Decimal.Neg d => 45%N :: uint_chars d
  end.

End PyStr.
Import PyStr.

(* ------------------------------------------------------------------ *)
(** ** Exceptions *)

Inductive exn : Type :=
| KeyError | TypeError | AttributeError | IndexError | ValueError
| ReError | OSError | RuntimeError.

Inductive result (A : Type) : Type :=
| Ok (a : A)
| Raise (e : exn).
Arguments Ok {A} a.
Arguments Raise {A} e.

Definition bind {A B : Type} (r : result A) (k : A -> result B) : result B :=
  match r with
  | Ok a => k a
  | Raise e => Raise e
  end.

Notation "x <- r ;; k" := (bind r (fun x => k))
  (at level 61, r at next level, right associativity).
Notation "' p <- r ;; k" := (bind r (fun p => k))
  (at level 61, p pattern, r at next level, right associativity).

(** attribute or key access: [None] is an absent attribute or key *)
Definition getattr {A : Type} (a : option A) : result A :=
  match a with Some x => Ok x | None => Raise AttributeError end.

Definition getitem {A : Type} (a : option A) : result A :=
  match a with Some x => Ok x | None => Raise KeyError end.

(* ------------------------------------------------------------------ *)
(** ** The regular expressions written in the source *)

Module Re.

Definition STAR : char := 42%N.
Definition LBRACK : char := 91%N.
Definition RBRACK : char := 93%N.
Definition LPAREN : char := 40%N.
Definition RPAREN : char := 41%N.

Definition chr_is (c : char) (x : char) : bool := (x =? c)%N.
Definition chr_isnot (c : char) (x : char) : bool := negb (x =? c)%N.

(** [\[([^\]]+)\]\([^)]+\)] at the head of [t]: the link text and the
    length of the match. *)
Definition link_at (t : str) : option (str * nat) :=
  match t with
  | c :: r =>
    if chr_is LBRACK c then
      let n := span_len (chr_isnot RBRACK) r in
      match n, skipn n r with
      | S _, c1 :: c2 :: r2 =>
        if chr_is RBRACK c1 && chr_is LPAREN c2 then
          let k := span_len (chr_isnot RPAREN) r2 in
          match k, skipn k r2 with
          | S _, c3 :: _ =>
            if chr_is RPAREN c3 then Some (firstn n r, (1 + n + 2 + k + 1)%nat)
            else None
          | _, _ => None
          end
        else None
      | _, _ => None
      end
    else None
  | [] => None
  end.

(** [re.sub(r'\[([^\]]+)\]\([^)]+\)', r'\1', s)] *)
Definition sub_link (s : str) : str := scan link_at O s.

(** [re.sub(r'^\*{1,2}\s*', '', s)] *)
Definition sub_leading_stars (s : str) : str :=
  match s with
  | c1 :: t1 =>
    if chr_is STAR c1 then
      match t1 with
      | c2 :: t2 => if chr_is STAR c2 then lstrip t2 else lstrip t1
      | [] => []
      end
    else s
  | [] => []
  end.

(** end of the match of [^\s*\n+]: one past the last line break of the
    leading whitespace run, [O] when the run has none *)
Fixpoint blank_lines_end (s : str) (i best : nat) : nat :=
  match s with
  | c :: t =>
    if isspace c
    then blank_lines_end t (S i) (if chr_is LF c then S i else best)
    else best
  | [] => best
  end.

(** [re.sub(r'^\s*\n+', '', s)] *)
Definition sub_leading_blank_lines (s : str) : str :=
  skipn (blank_lines_end s O O) s.

End Re.

(* ------------------------------------------------------------------ *)
(** ** Title extraction *)

(** One record of [title_template.json]; an absent key is [None]. *)
Record pattern_info := {
  pi_pattern : option str;
  pi_description : option str
}.

(** A match object of [pattern.match(content)]: the groups from group 1
    on ([None] for a group that did not take part) and the end of the
    whole match; the start is 0. *)
Record match_obj := {
  m_groups : list (option str);
  m_end : nat
}.

(** [match.group(1)] *)
Definition group1 (m : match_obj) : result (option str) :=
  match m_groups m with
  | g :: _ => Ok g
  | [] => Raise IndexError
  end.

(** [FeedService.clean_title] *)
Definition clean_title (title : option str) : str :=
  match title with
  | None | Some [] => []
  | Some t =>
    let t := replace (u "*") [] t in
    let t := Re.sub_link t in
    strip (replace [LF] [SP] t)
  end.

(** [FeedService.clean_content] *)
Definition clean_content (content : str) : str :=
  match content with
  | [] => []
  | _ => Re.sub_leading_blank_lines (Re.sub_leading_stars content)
  end.

Section Extraction.

(** The [re] engine: [re.compile(p, re.MULTILINE)] ([None]: [re.error])
    and [pattern.match(content)]. *)
Variable regex : Type.
Variable re_compile : str -> option regex.
Variable re_match : regex -> str -> option match_obj.

(** The outcome of opening and loading [title_template.json], and the
    value under its key ['patterns'] when it has one. *)
Variable title_config : result (option (list pattern_info)).

(** the loop over the patterns; [None] when no pattern matched *)
Fixpoint try_patterns (ps : list pattern_info) (content : str)
  : result (option (str * str)) :=
  match ps with
  | [] => Ok None
  | pattern_info :: rest =>
    pattern_str <- getitem (pi_pattern pattern_info) ;;
    pattern_desc <- getitem (pi_description pattern_info) ;;
    match re_compile pattern_str with
    | None => Raise ReError
    | Some pattern =>
      match re_match pattern content with
      | Some m =>
        g <- group1 m ;;
        let title := clean_title g in
        let remaining_content := lstrip (slice_from (m_end m) content) in
        Ok (Some (title, remaining_content))
      | None => try_patterns rest content
      end
    end
  end.

(** the title of the no-match case *)
Definition default_title (content : str) : str :=
  let clean := strip (replace [LF] [SP] (clean_content content)) in
  let title := slice_to 20 clean in
  if (20 <? List.length clean)%nat then title ++ u "..." else title.

(** the body of the [try] block *)
Definition extract_try (content : str) : result (str * str) :=
  cfg <- title_config ;;
  patterns <- getitem cfg ;;
  r <- try_patterns patterns content ;;
  match r with
  | Some tc => Ok tc
  | None => Ok (default_title content, content)
  end.

(** [FeedService.extract_telegram_title_and_content]; [None] is an
    absent content. *)
Definition extract_telegram_title_and_content (content : option str)
  : str * str :=
  match content with
  | None | Some [] => ([], [])
  | Some c =>
    match extract_try c with
    | Ok tc => tc
    | Raise _ => ([], c)
    end
  end.

End Extraction.

(* ------------------------------------------------------------------ *)
(** ** Markdown rendering *)

(** A literal of the source that holds double quotes is written with a
    backquote in the place of each of them (the source has no backquote). *)
Definition uq (s : string) : str :=
  map (fun c => if (c =? 96)%N then 34%N else c) (u s).

Module Html.

(** [\n{2,}] at the head of [t] *)
Definition breaks_at (r : str) (t : str) : option (str * nat) :=
  match span_len (Re.chr_is LF) t with
  | S (S n) => Some (r, S (S n))
  | _ => None
  end.

(** [re.sub(r'\n{2,}', r, s)] *)
Definition sub_breaks (r : str) (s : str) : str := scan (breaks_at r) O s.

(** [<open>\s*<close>] at the head of [t] *)
Definition spaced_at (open close r : str) (t : str) : option (str * nat) :=
  if startswith open t then
    let rest := skipn (List.length open) t in
    let k := span_len isspace rest in
    if startswith close (skipn k rest)
    then Some (r, (List.length open + k + List.length close)%nat)
    else None
  else None.

(** [re.sub(r'<br>\s*<br>', '<br>', s)] *)
Definition sub_double_br (s : str) : str :=
  scan (spaced_at (u "<br>") (u "<br>") (u "<br>")) O s.

(** [re.sub(r'<p>\s*</p>', '', s)] *)
Definition sub_empty_p (s : str) : str :=
  scan (spaced_at (u "<p>") (u "</p>") []) O s.

(** [re.sub(r'<p><br></p>', '<p></p>', s)] *)
Definition sub_br_p (s : str) : str :=
  replace (u "<p><br></p>") (u "<p></p>") s.

End Html.

Section Markdown.

(** [markdown.markdown(text, extensions=['extra'])] of the markdown
    package; it may raise. *)
Variable markdown : str -> result str.

(** the lines of the text with heading markers escaped and two spaces
    appended *)
Definition process_line (line : str) : str :=
  (if startswith (u "#") line then 92%N :: line else line) ++ u "  ".

Definition preprocess (text : str) : str :=
  let text := Html.sub_breaks ([LF; LF] ++ u "<!-- paragraph -->" ++ [LF; LF]) text in
  join [LF] (map process_line (split [LF] text)).

(** the [except] branch, on the value [text] holds when it is entered *)
Definition fallback_html (text : str) : str :=
  let text := Html.sub_breaks (u "</p><p>") text in
  let text := replace [LF] (u "<br>") text in
  u "<p>" ++ text ++ u "</p>".

(** [FeedService.convert_markdown_to_html].  Inside the [try] block
    [text] is rebound to the preprocessed text before [markdown.markdown]
    is called, so the handler works on the preprocessed text. *)
Definition convert_markdown_to_html (text : str) : str :=
  match text with
  | [] => []
  | _ =>
    let text := preprocess text in
    match markdown text with
    | Ok html => replace (u "<p><!-- paragraph --></p>") (u "</p><p>") html
    | Raise _ => fallback_html text
    end
  end.

End Markdown.

(* ------------------------------------------------------------------ *)
(** ** Dates and times *)

Module Time.

(** A [datetime]: the microseconds since 0001-01-01T00:00:00 of its
    calendar fields, and its UTC offset in seconds when it is aware. *)
Record datetime := {
  micros : Z;
  tzinfo : option Z
}.

Definition is_leap (y : Z) : bool :=
  (y mod 4 =? 0) && (negb (y mod 100 =? 0) || (y mod 400 =? 0)).

Definition days_in_month (y m : Z) : Z :=
  if m =? 2 then (if is_leap y then 29 else 28)
  else if (m =? 4) || (m =? 6) || (m =? 9) || (m =? 11) then 30
  else 31.

Definition days_before_year (y : Z) : Z :=
  let y1 := y - 1 in y1 * 365 + y1 / 4 - y1 / 100 + y1 / 400.

Fixpoint days_before_month_go (y : Z) (n : nat) (m : Z) : Z :=
  match n with
  | O => 0
  | S k => days_in_month y (m - 1) + days_before_month_go y k (m - 1)
  end.

Definition days_before_month (y m : Z) : Z :=
  days_before_month_go y (Z.to_nat (m - 1)) m.

(** proleptic Gregorian ordinal, 1 for 0001-01-01 *)
Definition ymd2ord (y m d : Z) : Z :=
  days_before_year y + days_before_month y m + d.

Definition of_fields (y m d hh mm ss us : Z) (tz : option Z) : datetime :=
  {| micros := (((ymd2ord y m d - 1) * 24 + hh) * 3600 + mm * 60 + ss) * 1000000 + us;
     tzinfo := tz |}.

(** [dt - timedelta(hours=h)] *)
Definition sub_hours (dt : datetime) (h : Z) : datetime :=
  {| micros := micros dt - h * 3600 * 1000000; tzinfo := tzinfo dt |}.

(** whether the datetime is aware, that is, carries a UTC offset.  The
    feed library's [FeedEntry.published] takes an aware datetime only:
    for a naive one it raises [ValueError] (no timezone info). *)
Definition aware (dt : datetime) : bool :=
  match tzinfo dt with Some _ => true | None => false end.

Definition DASH : char := 45%N.
Definition COLON : char := 58%N.
Definition DOT : char := 46%N.

End Time.
Import Time.

(* ------------------------------------------------------------------ *)
(** ** The HTML fragments of the source *)

Module Fragment.

(** the image fragment of the first pass over the media *)
Definition img_tag (full_media_url filename : str) : str :=
  uq "<p><img src=`" ++ full_media_url ++ uq "` alt=`" ++ filename ++ uq "` style=`max-width:100%;height:auto;display:block;` /></p>".

Definition video_player (full_media_url type display_name : str) : str :=
  uq "
                            <div style=`margin:15px 0;border:1px solid #eee;padding:10px;border-radius:5px;background-color:#f9f9f9;`>
                                <video controls width=`100%` preload=`none` poster=`` style=`width:100%;max-width:600px;display:block;margin:0 auto;`>
                                    <source src=`" ++ full_media_url ++ uq "` type=`" ++ type ++ uq "`>
                                    您的浏览器不支持HTML5视频播放
                                </video>
                                <p style=`text-align:center;margin-top:8px;font-size:14px;`>
                                    <a href=`" ++ full_media_url ++ uq "` target=`_blank`>下载视频: " ++ display_name ++ u "</a>
                                </p>
                            </div>
                            ".

Definition audio_player (full_media_url type display_name : str) : str :=
  uq "
                            <div style=`margin:15px 0;border:1px solid #eee;padding:10px;border-radius:5px;background-color:#f9f9f9;`>
                                <audio controls style=`width:100%;max-width:600px;display:block;margin:0 auto;`>
                                    <source src=`" ++ full_media_url ++ uq "` type=`" ++ type ++ uq "`>
                                    您的浏览器不支持HTML5音频播放
                                </audio>
                                <p style=`text-align:center;margin-top:8px;font-size:14px;`>
                                    <a href=`" ++ full_media_url ++ uq "` target=`_blank`>下载音频: " ++ display_name ++ u "</a>
                                </p>
                            </div>
                            ".

Definition file_tag (full_media_url display_name : str) : str :=
  uq "
                            <div style=`margin:15px 0;padding:10px;border-radius:5px;background-color:#f5f5f5;text-align:center;`>
                                <a href=`" ++ full_media_url ++ uq "` target=`_blank` style=`display:inline-block;padding:8px 16px;background-color:#4CAF50;color:white;text-decoration:none;border-radius:4px;`>
                                    下载文件: " ++ display_name ++ u "
                                </a>
                            </div>
                            ".

(** the image fragment of the second pass *)
Definition missing_img_tag (full_media_url filename : str) : str :=
  uq "<p><img src=`" ++ full_media_url ++ uq "` alt=`" ++ filename ++ uq "` style=`max-width:100%;` /></p>".

Definition no_text : str := u "<p>该消息没有文本内容。</p>".

Definition media_count {A : Type} (media : list A) : str :=
  u "<p>包含 " ++ str_of_Z (Z.of_nat (List.length media)) ++ u " 个媒体文件。</p>".

(** the body of a test entry *)
Definition test_content (rule_id : Z) (stamp : str) : str :=
  u "
            <p>这是一个测试条目，由系统自动生成，因为规则 " ++ str_of_Z rule_id ++ u " 当前没有任何消息数据。</p>
            <p>当有消息被转发时，真实的条目将会在这里显示。</p>
            <hr>
            <p>此测试条目生成于: " ++ stamp ++ u "</p>
            ".

End Fragment.

(* ------------------------------------------------------------------ *)
(** ** Entries, media and the feed *)

(** A media attachment.  [m_type] and [m_size] are [None] when the
    object has no such attribute (the source tests for both with
    [hasattr]); [m_original_name] is [None] when the attribute is absent
    or holds [None]. *)
Record Media := {
  m_url : str;
  m_type : option str;
  m_size : option Z;
  m_filename : str;
  m_original_name : option str
}.

Record Entry := {
  e_id : option str;
  e_message_id : option str;
  e_content : option str;
  e_media : list Media;
  e_published : str;
  e_author : option str;
  e_link : option str;
  e_rule_id : Z
}.

(** One enclosure as [fe.enclosure(url=, length=, type=)] receives it. *)
Record enclosure := {
  enc_url : str;
  enc_length : str;
  enc_type : str
}.

(** A feed entry of the feed library, as far as the source writes it;
    a field is [None] until its setter has been called.  Enclosures are
    kept in the order of the [fe.enclosure] calls. *)
Record FeedEntry := {
  fe_id : option str;
  fe_title : option str;
  fe_content : option str;
  fe_description : option str;
  fe_published : option datetime;
  fe_author : option str;
  fe_link : option str;
  fe_enclosures : list enclosure
}.

Definition empty_entry : FeedEntry :=
  {| fe_id := None; fe_title := None; fe_content := None;
     fe_description := None; fe_published := None; fe_author := None;
     fe_link := None; fe_enclosures := [] |}.

(** The calls of [logger.error] in [generate_feed_from_entries]. *)
Inductive log_record : Type :=
| LogImageError (e : exn)
| LogEnclosureError (e : exn)
| LogEntryError (e : exn).

(** The feed: its header fields, its entries in the order the feed
    keeps them (the entry added last comes first), the errors logged
    while it was built and the number of clock readings taken so far. *)
Record Feed := {
  fg_title : str;
  fg_description : str;
  fg_link : str;
  fg_language : str;
  fg_entries : list FeedEntry;
  fg_log : list log_record;
  fg_clock : nat
}.

(** ** The state of one iteration of the entry loop

    [st_fe] is the object [fe] returned by [fg.add_entry()], which is
    part of the feed from that call on; [st_content] is the local
    variable [content]. *)
Record build_state := {
  st_fe : FeedEntry;
  st_content : str;
  st_log : list log_record;
  st_clock : nat
}.

Definition M (A : Type) : Type := build_state -> build_state * result A.

Definition ret {A : Type} (a : A) : M A := fun st => (st, Ok a).

Definition bindM {A B : Type} (m : M A) (k : A -> M B) : M B :=
  fun st =>
    match m st with
    | (st', Ok a) => k a st'
    | (st', Raise e) => (st', Raise e)
    end.

Notation "x <~ m ;; k" := (bindM m (fun x => k))
  (at level 61, m at next level, right associativity).
Notation "m ;;; k" := (bindM m (fun _ => k))
  (at level 61, right associativity).

Definition lift {A : Type} (r : result A) : M A := fun st => (st, r).

(** [try: body except Exception as e: handler(e)]; the state the body
    reached when it raised is the state the handler starts from *)
Definition try_except {A : Type} (body : M A) (handler : exn -> M A) : M A :=
  fun st =>
    match body st with
    | (st', Ok a) => (st', Ok a)
    | (st', Raise e) => handler e st'
    end.

Definition get_content : M str := fun st => (st, Ok (st_content st)).

Definition set_content (c : str) : M unit :=
  fun st => ({| st_fe := st_fe st; st_content := c;
                st_log := st_log st; st_clock := st_clock st |}, Ok tt).

(** [content += fragment] *)
Definition append_content (fragment : str) : M unit :=
  fun st => ({| st_fe := st_fe st; st_content := st_content st ++ fragment;
                st_log := st_log st; st_clock := st_clock st |}, Ok tt).

Definition modify_fe (f : FeedEntry -> FeedEntry) : M unit :=
  fun st => ({| st_fe := f (st_fe st); st_content := st_content st;
                st_log := st_log st; st_clock := st_clock st |}, Ok tt).

Definition log_error (r : log_record) : M unit :=
  fun st => ({| st_fe := st_fe st; st_content := st_content st;
                st_log := st_log st ++ [r]; st_clock := st_clock st |}, Ok tt).

(** one reading of the clock: the number of the reading *)
Definition tick : M nat :=
  fun st => ({| st_fe := st_fe st; st_content := st_content st;
                st_log := st_log st; st_clock := S (st_clock st) |},
             Ok (st_clock st)).

(** the setters of the feed entry *)
Definition set_id (v : option str) (fe : FeedEntry) : FeedEntry :=
  {| fe_id := v; fe_title := fe_title fe; fe_content := fe_content fe;
     fe_description := fe_description fe; fe_published := fe_published fe;
     fe_author := fe_author fe; fe_link := fe_link fe;
     fe_enclosures := fe_enclosures fe |}.

Definition set_title (v : str) (fe : FeedEntry) : FeedEntry :=
  {| fe_id := fe_id fe; fe_title := Some v; fe_content := fe_content fe;
     fe_description := fe_description fe; fe_published := fe_published fe;
     fe_author := fe_author fe; fe_link := fe_link fe;
     fe_enclosures := fe_enclosures fe |}.

Definition set_content_field (v : str) (fe : FeedEntry) : FeedEntry :=
  {| fe_id := fe_id fe; fe_title := fe_title fe; fe_content := Some v;
     fe_description := fe_description fe; fe_published := fe_published fe;
     fe_author := fe_author fe; fe_link := fe_link fe;
     fe_enclosures := fe_enclosures fe |}.

Definition set_description (v : str) (fe : FeedEntry) : FeedEntry :=
  {| fe_id := fe_id fe; fe_title := fe_title fe; fe_content := fe_content fe;
     fe_description := Some v; fe_published := fe_published fe;
     fe_author := fe_author fe; fe_link := fe_link fe;
     fe_enclosures := fe_enclosures fe |}.

Definition set_published (v : datetime) (fe : FeedEntry) : FeedEntry :=
  {| fe_id := fe_id fe; fe_title := fe_title fe; fe_content := fe_content fe;
     fe_description := fe_description fe; fe_published := Some v;
     fe_author := fe_author fe; fe_link := fe_link fe;
     fe_enclosures := fe_enclosures fe |}.

Definition set_author (v : str) (fe : FeedEntry) : FeedEntry :=
  {| fe_id := fe_id fe; fe_title := fe_title fe; fe_content := fe_content fe;
     fe_description := fe_description fe; fe_published := fe_published fe;
     fe_author := Some v; fe_link := fe_link fe;
     fe_enclosures := fe_enclosures fe |}.

Definition set_link (v : str) (fe : FeedEntry) : FeedEntry :=
  {| fe_id := fe_id fe; fe_title := fe_title fe; fe_content := fe_content fe;
     fe_description := fe_description fe; fe_published := fe_published fe;
     fe_author := fe_author fe; fe_link := Some v;
     fe_enclosures := fe_enclosures fe |}.

Definition add_enclosure (v : enclosure) (fe : FeedEntry) : FeedEntry :=
  {| fe_id := fe_id fe; fe_title := fe_title fe; fe_content := fe_content fe;
     fe_description := fe_description fe; fe_published := fe_published fe;
     fe_author := fe_author fe; fe_link := fe_link fe;
     fe_enclosures := fe_enclosures fe ++ [v] |}.

(** truth value of an optional string: [None] and [""] are false *)
Definition truthy (s : option str) : option str :=
  match s with
  | Some (c :: t) => Some (c :: t)
  | _ => None
  end.

(** [a or b] *)
Definition py_or (a b : option str) : option str :=
  match truthy a with
  | Some x => Some x
  | None => b
  end.

(* ------------------------------------------------------------------ *)
(** ** FeedService *)

Section Service.

(** The [re] engine and the title pattern file (see [Extraction]). *)
Variable regex : Type.
Variable re_compile : str -> option regex.
Variable re_match : regex -> str -> option match_obj.
Variable title_config : result (option (list pattern_info)).

(** [markdown.markdown] *)
Variable markdown : str -> result str.

(** [settings]: host, port, the media directory of a rule (the call may
    raise) and the default time zone as a UTC offset in seconds. *)
Variable HOST : str.
Variable PORT : Z.
Variable get_rule_media_path : Z -> result str.
Variable DEFAULT_TIMEZONE : Z.

(** The clock: the UTC time, in microseconds, of each reading in turn,
    and the offset of local time in seconds. *)
Variable clock : nat -> Z.
Variable local_offset : Z.

(** [fe.published(dt)] of the feed library raises [ValueError] for a
    value it does not accept; [published_ok] tells which it accepts.
    The library itself accepts the aware datetimes ([aware]). *)
Variable published_ok : datetime -> bool.

(** [datetime.fromisoformat] of the standard library, whose grammar
    depends on the Python version; [None] is the [ValueError] it raises
    for a string it does not read. *)
Variable fromisoformat : str -> option datetime.

(** [dt.strftime('%Y-%m-%d %H:%M:%S')] *)
Variable strftime : datetime -> str.

(** [datetime.now()] and [datetime.now(tz)] at reading [k] *)
Definition now_naive (k : nat) : datetime :=
  {| micros := clock k + local_offset * 1000000; tzinfo := None |}.

Definition now_in (tz : Z) (k : nat) : datetime :=
  {| micros := clock k + tz * 1000000; tzinfo := Some tz |}.

Definition base_url : str := u "http://" ++ HOST ++ u ":" ++ str_of_Z PORT.

(** [os.path.basename] (POSIX) *)
Definition basename (p : str) : str := last (split (u "/") p) [].

(** [os.path.basename(media.url.split('/')[-1])] *)
Definition media_filename (m : Media) : str :=
  basename (last (split (u "/") (m_url m)) []).

(** [f"{base_url}/media/{entry.rule_id}/{media_filename}"] *)
Definition full_media_url (rule_id : Z) (m : Media) : str :=
  base_url ++ u "/media/" ++ str_of_Z rule_id ++ u "/" ++ media_filename m.

(** [media.original_name] when the attribute is there and true, else
    [media.filename] *)
Definition display_name (m : Media) : str :=
  match truthy (m_original_name m) with
  | Some n => n
  | None => m_filename m
  end.

(** *** First pass over the media: the inline fragments *)

Definition embed_media (rule_id : Z) (m : Media) : M unit :=
  let url := full_media_url rule_id m in
  type <~ lift (getattr (m_type m)) ;;
  if startswith (u "image/") type then
    try_except
      (_ <~ lift (get_rule_media_path rule_id) ;;
       append_content (Fragment.img_tag url (m_filename m)))
      (fun e => log_error (LogImageError e))
  else if startswith (u "video/") type then
    append_content (Fragment.video_player url type (display_name m))
  else if startswith (u "audio/") type then
    append_content (Fragment.audio_player url type (display_name m))
  else
    append_content (Fragment.file_tag url (display_name m)).

Fixpoint embed_all (rule_id : Z) (media : list Media) : M unit :=
  match media with
  | [] => ret tt
  | m :: rest => embed_media rule_id m ;;; embed_all rule_id rest
  end.

(** *** The placeholder, the re-wrapping and the clean-up *)

(** [if not content: ...]; the second component tells whether the
    count-of-attachments sentence was appended *)
Definition ensure_nonempty (media : list Media) (content : str) : str * bool :=
  match content with
  | [] =>
    match media with
    | [] => (Fragment.no_text, false)
    | _ => (Fragment.no_text ++ Fragment.media_count media, true)
    end
  | _ => (content, false)
  end.

Definition nonblank (s : str) : bool :=
  match strip s with [] => false | _ => true end.

Definition wrap_lines (lines : list str) : str :=
  fold_left (fun acc line => if nonblank line then acc ++ u "<br>" ++ line else acc)
            (tl lines) (u "<p>" ++ hd [] lines)
  ++ u "</p>".

Definition wrap_paragraphs (content : str) : str :=
  fold_left (fun acc p => if nonblank p then acc ++ wrap_lines (split [LF] p) else acc)
            (split [LF; LF] content) [].

(** [if not content.startswith("<"): ...] *)
Definition ensure_markup (content : str) : str :=
  if startswith (u "<") content then content
  else
    match wrap_paragraphs content with
    | [] => u "<p>" ++ content ++ u "</p>"
    | processed => processed
    end.

(** the three [re.sub] calls *)
Definition normalize (content : str) : str :=
  Html.sub_br_p (Html.sub_empty_p (Html.sub_double_br content)).

(** *** Second pass over the media: missing images and enclosures *)

Definition enclosure_of (url : str) (m : Media) : enclosure :=
  {| enc_url := url;
     enc_length := match m_size m with Some n => str_of_Z n | None => u "0" end;
     enc_type := match m_type m with
                 | Some t => t
                 | None => u "application/octet-stream"
                 end |}.

Definition attach_media (rule_id : Z) (m : Media) : M unit :=
  try_except
    (let url := full_media_url rule_id m in
     type <~ lift (getattr (m_type m)) ;;
     content <~ get_content ;;
     (if startswith (u "image/") type && negb (contains url content)
      then append_content (Fragment.missing_img_tag url (m_filename m))
      else ret tt) ;;;
     (* the log line formats [media.type] and [media.size] *)
     _ <~ lift (getattr (m_size m)) ;;
     modify_fe (add_enclosure (enclosure_of url m)))
    (fun e => log_error (LogEnclosureError e)).

Fixpoint attach_all (rule_id : Z) (media : list Media) : M unit :=
  match media with
  | [] => ret tt
  | m :: rest => attach_media rule_id m ;;; attach_all rule_id rest
  end.

(** *** The published time *)

(** [fe.published(dt)] *)
Definition publish (dt : datetime) : M unit :=
  if published_ok dt then modify_fe (set_published dt) else lift (Raise ValueError).

(** [try: ... except ValueError: ...] *)
Definition set_published_time (published : str) : M unit :=
  try_except
    (dt <~ lift (match fromisoformat published with
                 | Some dt => Ok dt
                 | None => Raise ValueError
                 end) ;;
     publish dt)
    (fun e =>
       match e with
       | ValueError => k <~ tick ;; publish (now_in DEFAULT_TIMEZONE k)
       | _ => lift (Raise e)
       end).

(** *** One entry: the body of the [try] block after [fg.add_entry()] *)

(** the id, the title and the rendered text *)
Definition start_entry (entry : Entry) : M unit :=
  modify_fe (set_id (py_or (e_id entry) (e_message_id entry))) ;;;
  let '(extracted_title, extracted_content) :=
    extract_telegram_title_and_content regex re_compile re_match title_config
      (Some (match truthy (e_content entry) with Some c => c | None => [] end)) in
  modify_fe (set_title extracted_title) ;;;
  set_content (convert_markdown_to_html markdown extracted_content).

(** the placeholder, the re-wrapping and the clean-up of [content] *)
Definition fix_content (entry : Entry) : M unit :=
  content <~ get_content ;;
  set_content (normalize (ensure_markup (fst (ensure_nonempty (e_media entry) content)))).

(** [fe.content(content, type='html')] and [fe.description(content)] *)
Definition store_content : M unit :=
  content <~ get_content ;;
  modify_fe (set_content_field content) ;;;
  modify_fe (set_description content).

Definition set_author_and_link (entry : Entry) : M unit :=
  (match truthy (e_author entry) with
   | Some a => modify_fe (set_author a)
   | None => ret tt
   end) ;;;
  (match truthy (e_link entry) with
   | Some l => modify_fe (set_link l)
   | None => ret tt
   end).

Definition build_entry (entry : Entry) : M unit :=
  start_entry entry ;;;
  embed_all (e_rule_id entry) (e_media entry) ;;;
  fix_content entry ;;;
  attach_all (e_rule_id entry) (e_media entry) ;;;
  store_content ;;;
  set_published_time (e_published entry) ;;;
  set_author_and_link entry.

(** *** The feed *)

(** [FeedService._extract_chat_name] *)
Definition _extract_chat_name (link : option str) : str :=
  match truthy link with
  | None => []
  | Some l =>
    if negb (contains (u "t.me/") l) then []
    else
      match split (u "t.me/") l with
      | _ :: part :: _ => hd [] (split (u "/") part)
      | _ => []
      end
  end.

Definition add_log (fg : Feed) (entries : list FeedEntry)
    (log : list log_record) (k : nat) : Feed :=
  {| fg_title := fg_title fg; fg_description := fg_description fg;
     fg_link := fg_link fg; fg_language := fg_language fg;
     fg_entries := entries; fg_log := log; fg_clock := k |}.

(** One iteration of [for entry in entries].  [fe = fg.add_entry()] is
    the first statement of the [try] block: the new entry belongs to the
    feed from then on, in whatever state the rest of the block leaves
    it.  Called without an [order] argument, [add_entry] puts the new
    entry in front of the entries the feed already has.  The handler
    logs and continues. *)
Definition add_one (fg : Feed) (entry : Entry) : Feed :=
  let st0 := {| st_fe := empty_entry; st_content := [];
                st_log := fg_log fg; st_clock := fg_clock fg |} in
  match build_entry entry st0 with
  | (st, Ok _) =>
    add_log fg (st_fe st :: fg_entries fg) (st_log st) (st_clock st)
  | (st, Raise e) =>
    add_log fg (st_fe st :: fg_entries fg)
               (st_log st ++ [LogEntryError e]) (st_clock st)
  end.

(** [FeedService.generate_feed_from_entries] *)
Definition generate_feed_from_entries (rule_id : Z) (entries : list Entry) : Feed :=
  let fg :=
    match entries with
    | first_entry :: _ =>
      let chat_name := _extract_chat_name (e_link first_entry) in
      {| fg_title := u "TG Forwarder - " ++
                     match chat_name with
                     | [] => u "Rule " ++ str_of_Z rule_id
                     | _ => chat_name
                     end;
         fg_description := u "TG Forwarder RSS - 规则 " ++ str_of_Z rule_id ++ u " 的消息";
         fg_link := base_url ++ u "/rss/" ++ str_of_Z rule_id;
         fg_language := u "zh-CN";
         fg_entries := []; fg_log := []; fg_clock := O |}
    | [] =>
      {| fg_title := u "TG Forwarder RSS - Rule " ++ str_of_Z rule_id;
         fg_description := u "TG Forwarder RSS Feed";
         fg_link := base_url ++ u "/rss/" ++ str_of_Z rule_id;
         fg_language := u "zh-CN";
         fg_entries := []; fg_log := []; fg_clock := O |}
    end in
  fold_left add_one entries fg.

(** *** The test feed *)

(** one iteration of [for i in range(1, 4)]; nothing catches what
    [fe.published] raises *)
Definition test_entry (rule_id : Z) (i : Z) (k : nat) : result FeedEntry :=
  let entry_id := u "test-" ++ str_of_Z rule_id ++ u "-" ++ str_of_Z i in
  let content := Fragment.test_content rule_id (strftime (now_naive k)) in
  let dt := sub_hours (now_naive (S k)) i in
  if published_ok dt then
    Ok {| fe_id := Some entry_id;
          fe_title := Some (u "测试条目 " ++ str_of_Z i ++ u " - 规则 " ++ str_of_Z rule_id);
          fe_content := Some content;
          fe_description := Some content;
          fe_published := Some dt;
          fe_author := Some (u "TG Forwarder System");
          fe_link := Some (base_url ++ u "/rss/feed/" ++ str_of_Z rule_id
                           ++ u "?entry=" ++ entry_id);
          fe_enclosures := [] |}
  else Raise ValueError.

(** the entries of the loop, in the order of their creation *)
Fixpoint test_entries (rule_id : Z) (idx : list Z) (k : nat) : result (list FeedEntry) :=
  match idx with
  | [] => Ok []
  | i :: rest =>
    fe <- test_entry rule_id i k ;;
    fes <- test_entries rule_id rest (S (S k)) ;;
    Ok (fe :: fes)
  end.

(** [FeedService.generate_test_feed] *)
Definition generate_test_feed (rule_id : Z) : result Feed :=
  fes <- test_entries rule_id [1; 2; 3] O ;;
  Ok {| fg_title := u "TG Forwarder RSS - Rule " ++ str_of_Z rule_id ++ u " (测试数据)";
        fg_description := u "TG Forwarder RSS - 规则 " ++ str_of_Z rule_id ++ u " 的测试消息";
        fg_link := base_url ++ u "/rss/feed/" ++ str_of_Z rule_id;
        fg_language := u "zh-CN";
        fg_entries := rev fes; fg_log := []; fg_clock := 6%nat |}.

End Service.

(* ------------------------------------------------------------------ *)
(** ** Counting image elements *)

(** the number of places of [s] at which [p] starts *)
Fixpoint count_sub (p s : str) : nat :=
  (if startswith p s then 1 else 0) +
  match s with
  | [] => 0
  | _ :: t => count_sub p t
  end.

(** the opening of an image element whose source is [url] *)
Definition img_open (url : str) : str := uq "<img src=`" ++ url ++ uq "`".

(** the number of image elements of [body] whose source is [url] *)
Definition embeds (url body : str) : nat := count_sub (img_open url) body.

(* ------------------------------------------------------------------ *)
(** ** A sample environment

    A small instance of the parameters, used to run the definitions on
    concrete inputs: a [re] engine that knows the two patterns
    [^\*\*(.+?)\*\*] and [^【(.+?)】], a pattern file with these
    patterns, a markdown converter that wraps its input in a paragraph,
    a clock, a feed library that takes aware datetimes only, and a
    parser for two ISO formats. *)

Module Sample.

Inductive regex : Type := BoldTitle | BracketTitle.

Definition bold_pattern : str := u "^\*\*(.+?)\*\*".
Definition bracket_pattern : str := u "^【(.+?)】".

Definition re_compile (p : str) : option regex :=
  if str_eqb p bold_pattern then Some BoldTitle
  else if str_eqb p bracket_pattern then Some BracketTitle
  else None.

(** the shortest non-empty run without a line break that is followed by
    two stars *)
Fixpoint lazy_run (acc : str) (s : str) : option (str * nat) :=
  match s with
  | [] => None
  | c :: t =>
    if Re.chr_is LF c then None
    else if startswith (u "**") t then Some (rev (c :: acc), S (List.length acc))
    else lazy_run (c :: acc) t
  end.

(** the same up to a closing bracket *)
Fixpoint lazy_run_to (stop : str) (acc : str) (s : str) : option (str * nat) :=
  match s with
  | [] => None
  | c :: t =>
    if Re.chr_is LF c then None
    else if startswith stop t then Some (rev (c :: acc), S (List.length acc))
    else lazy_run_to stop (c :: acc) t
  end.

Definition re_match (r : regex) (content : str) : option match_obj :=
  match r with
  | BoldTitle =>
    if startswith (u "**") content then
      match lazy_run [] (skipn 2 content) with
      | Some (g, n) => Some {| m_groups := [Some g]; m_end := (2 + n + 2)%nat |}
      | None => None
      end
    else None
  | BracketTitle =>
    if startswith (u "【") content then
      match lazy_run_to (u "】") [] (skipn 1 content) with
      | Some (g, n) => Some {| m_groups := [Some g]; m_end := (1 + n + 1)%nat |}
      | None => None
      end
    else None
  end.

Definition bold : pattern_info :=
  {| pi_pattern := Some bold_pattern; pi_description := Some (u "bold title") |}.

Definition bracket : pattern_info :=
  {| pi_pattern := Some bracket_pattern;
     pi_description := Some (u "bracket title") |}.

(** a record whose pattern does not compile *)
Definition broken : pattern_info :=
  {| pi_pattern := Some (u "("); pi_description := Some (u "broken") |}.

Definition patterns : list pattern_info := [bracket; bold].

Definition title_config : result (option (list pattern_info)) := Ok (Some patterns).

Definition markdown (text : str) : result str := Ok (u "<p>" ++ text ++ u "</p>").

Definition HOST : str := u "example.org".
Definition PORT : Z := 8000.
Definition get_rule_media_path (rule_id : Z) : result str :=
  Ok (u "/media/" ++ str_of_Z rule_id).
(** a clock that stands at 2026-11-03T12:00:00 *)
Definition clock (k : nat) : Z := 63929304000000000.
Definition strftime (dt : datetime) : str := str_of_Z (micros dt).

(** a feed library that takes only timestamps with a time zone *)
Definition aware_only : datetime -> bool := aware.

(** A parser for the two formats [YYYY-MM-DDTHH:MM:SS], which
    [datetime.fromisoformat] reads as the naive datetime of these
    fields, and [YYYY-MM-DDTHH:MM:SS+HH:MM] (or [-HH:MM]), which it
    reads as the aware datetime of these fields and this UTC offset;
    used to run the definitions, it reads nothing else. *)
Fixpoint number (acc : Z) (s : str) : option Z :=
  match s with
  | [] => Some acc
  | c :: t =>
    if ((48 <=? c) && (c <=? 57))%N
    then number (acc * 10 + Z.of_N (c - 48)) t
    else None
  end.

Definition field (from len : nat) (s : str) : option Z :=
  number 0 (firstn len (skipn from s)).

Definition char_at (i : nat) (c : char) (s : str) : bool :=
  match skipn i s with
  | x :: _ => (x =? c)%N
  | [] => false
  end.

Definition date_and_time (s : str) (tz : option Z) : option datetime :=
  if (List.length s =? 19)%nat && char_at 4 DASH s && char_at 7 DASH s &&
     char_at 10 84%N s && char_at 13 COLON s && char_at 16 COLON s
  then
    match field 0 4 s, field 5 2 s, field 8 2 s,
          field 11 2 s, field 14 2 s, field 17 2 s with
    | Some y, Some m, Some d, Some hh, Some mm, Some ss =>
      if (1 <=? y) && (1 <=? m) && (m <=? 12) &&
         (1 <=? d) && (d <=? days_in_month y m) &&
         (hh <? 24) && (mm <? 60) && (ss <? 60)
      then Some (of_fields y m d hh mm ss 0 tz)
      else None
    | _, _, _, _, _, _ => None
    end
  else None.

(** the UTC offset [+HH:MM] or [-HH:MM], in seconds *)
Definition utc_offset (s : str) : option Z :=
  if (List.length s =? 6)%nat && (char_at 0 43%N s || char_at 0 DASH s) &&
     char_at 3 COLON s
  then
    match field 1 2 s, field 4 2 s with
    | Some hh, Some mm =>
      if (hh <? 24) && (mm <? 60)
      then Some ((if char_at 0 DASH s then -1 else 1) * (hh * 3600 + mm * 60))
      else None
    | _, _ => None
    end
  else None.

Definition fromisoformat (s : str) : option datetime :=
  if (List.length s =? 19)%nat then date_and_time s None
  else
    match utc_offset (skipn 19 s) with
    | Some tz => date_and_time (firstn 19 s) (Some tz)
    | None => None
    end.

Definition extract := extract_telegram_title_and_content regex re_compile re_match.

Definition image : Media :=
  {| m_url := u "store/7/photo.png"; m_type := Some (u "image/png");
     m_size := Some 1024; m_filename := u "photo.png"; m_original_name := None |}.

Definition headline : str :=
  u "**Breaking: Market Update**" ++ [LF] ++ u "Prices rose today.".

Definition headline_match : match_obj :=
  {| m_groups := [Some (u "Breaking: Market Update")]; m_end := 27 |}.

(** a headline whose title has emphasis markers, a link and a trailing
    space to clean, followed by blank lines *)
Definition busy_headline : str :=
  u "**Breaking *now*: [Market](http://x.y/z) Update **"
  ++ [LF; LF] ++ u "  Prices rose today.".

Definition busy_group : str := u "Breaking *now*: [Market](http://x.y/z) Update ".

Definition busy_match : match_obj :=
  {| m_groups := [Some busy_group]; m_end := 50 |}.

(** a text without a title pattern: a leading emphasis marker, a blank
    line and two lines *)
Definition starred_text : str :=
  u "* " ++ [LF; LF] ++ u "Prices rose today," ++ [LF] ++ u "and they will rise again.".

Definition entry : Entry :=
  {| e_id := Some (u "42"); e_message_id := None;
     e_content := Some headline;
     e_media := [image]; e_published := u "2024-01-01T00:00:00";
     e_author := None; e_link := Some (u "https://t.me/news/42");
     e_rule_id := 7 |}.

(** the same entry with a published string that carries a UTC offset *)
Definition zoned_entry : Entry :=
  {| e_id := Some (u "42"); e_message_id := None;
     e_content := Some headline;
     e_media := [image]; e_published := u "2024-01-01T08:00:00+08:00";
     e_author := None; e_link := Some (u "https://t.me/news/42");
     e_rule_id := 7 |}.

Definition feed_with (path : Z -> result str) (entries : list Entry) : Feed :=
  generate_feed_from_entries regex re_compile re_match title_config markdown
    HOST PORT path 0 clock aware_only fromisoformat 7 entries.

Definition feed_of (entries : list Entry) : Feed :=
  feed_with get_rule_media_path entries.

Definition st0 : build_state :=
  {| st_fe := empty_entry; st_content := []; st_log := []; st_clock := O |}.

(** a media object without the attribute [type] *)
Definition untyped : Media :=
  {| m_url := u "store/7/blob.bin"; m_type := None;
     m_size := Some 10; m_filename := u "blob.bin"; m_original_name := None |}.

(** a media object without the attribute [size] *)
Definition unsized : Media :=
  {| m_url := u "store/7/photo.png"; m_type := Some (u "image/png");
     m_size := None; m_filename := u "photo.png"; m_original_name := None |}.

Definition entry_with (id : string) (content : str) (media : list Media) : Entry :=
  {| e_id := Some (u id); e_message_id := None; e_content := Some content;
     e_media := media; e_published := u "2024-01-01T00:00:00";
     e_author := None; e_link := None; e_rule_id := 7 |}.

Definition plain_entry (id content : string) (media : list Media) : Entry :=
  entry_with id (u content) media.

Definition untyped_entry : Entry := plain_entry "43" "hello" [untyped].
Definition unsized_entry : Entry := plain_entry "44" "hello" [unsized].

(** a message whose text quotes the public URL of its own image *)
Definition linked_entry : Entry :=
  plain_entry "45" "see http://example.org:8000/media/7/photo.png" [image].

(** a message whose text already holds an image element for the URL *)
Definition embedding_entry : Entry :=
  entry_with "47" (uq "<img src=`http://example.org:8000/media/7/photo.png`>")
             [image].

(** an image whose display name holds an image element for the URL *)
Definition marked_image : Media :=
  {| m_url := u "store/7/photo.png"; m_type := Some (u "image/png");
     m_size := Some 1024;
     m_filename := uq "x` /><img src=`http://example.org:8000/media/7/photo.png";
     m_original_name := None |}.

Definition marked_entry : Entry := plain_entry "48" "hello" [marked_image].

(** an entry whose published string does not parse *)
Definition undated_entry : Entry :=
  {| e_id := Some (u "49"); e_message_id := None; e_content := Some (u "hello");
     e_media := []; e_published := u "not-a-date";
     e_author := None; e_link := None; e_rule_id := 7 |}.

(** a settings call that raises *)
Definition failing_media_path (rule_id : Z) : result str := Raise OSError.

Definition photo_url : str := u "http://example.org:8000/media/7/photo.png".

(** an entry without text and without media *)
Definition blank_entry : Entry := plain_entry "46" "" [].

(** a markdown converter that raises *)
Definition failing_markdown (text : str) : result str := Raise RuntimeError.

End Sample.

(* ------------------------------------------------------------------ *)
(** ** Predicates and functions of the statements *)

Section PatternPredicates.

Variable regex : Type.
Variable re_compile : str -> option regex.
Variable re_match : regex -> str -> option match_obj.

(** a well-formed pattern record that compiles and does not match *)
Definition no_match (content : str) (p : pattern_info) : Prop :=
  exists pattern_str desc r,
    pi_pattern p = Some pattern_str /\ pi_description p = Some desc /\
    re_compile pattern_str = Some r /\ re_match r content = None.

(** a well-formed pattern record that compiles and matches with [m] *)
Definition matches_with (content : str) (p : pattern_info) (m : match_obj) : Prop :=
  exists pattern_str desc r,
    pi_pattern p = Some pattern_str /\ pi_description p = Some desc /\
    re_compile pattern_str = Some r /\ re_match r content = Some m.

End PatternPredicates.

(** [m] returns normally from every state and takes no clock reading *)
Definition steady {A : Type} (m : M A) : Prop :=
  forall st, exists st' a, m st = (st', Ok a) /\ st_clock st' = st_clock st.

(** a computation that may raise but takes no clock reading *)
Definition timeless {A : Type} (m : M A) : Prop :=
  forall st, st_clock (fst (m st)) = st_clock st.

Definition with_content (st : build_state) (c : str) : build_state :=
  {| st_fe := st_fe st; st_content := c; st_log := st_log st; st_clock := st_clock st |}.

Definition with_fe (st : build_state) (fe : FeedEntry) : build_state :=
  {| st_fe := fe; st_content := st_content st; st_log := st_log st;
     st_clock := st_clock st |}.

Section MediaPredicates.

Variable HOST : str.
Variable PORT : Z.
Variable get_rule_media_path : Z -> result str.

(** the media item has a type and, when it is an image, the settings
    call of the image branch returns: the item appends its fragment *)
Definition embeds_cleanly (rule_id : Z) (m : Media) : Prop :=
  exists t, m_type m = Some t /\
    (startswith (u "image/") t = true -> exists p, get_rule_media_path rule_id = Ok p).

(** what one iteration of the second pass does to [content] *)
Definition attach_content (rule_id : Z) (m : Media) (content : str) : str :=
  match m_type m with
  | Some t =>
    if startswith (u "image/") t && negb (contains (full_media_url HOST PORT rule_id m) content)
    then content ++ Fragment.missing_img_tag (full_media_url HOST PORT rule_id m) (m_filename m)
    else content
  | None => content
  end.

Definition attach_contents (rule_id : Z) (media : list Media) (content : str) : str :=
  fold_left (fun c m => attach_content rule_id m c) media content.

(** every image of typed medium [m] is visible in [content] *)
Definition covered (rule_id : Z) (content : str) (m : Media) : Prop :=
  forall t, m_type m = Some t -> startswith (u "image/") t = true ->
    contains (full_media_url HOST PORT rule_id m) content = true.

(** the enclosures the second pass adds for one media item *)
Definition enclosures_of (rule_id : Z) (m : Media) : list enclosure :=
  match m_type m, m_size m with
  | Some _, Some _ => [enclosure_of (full_media_url HOST PORT rule_id m) m]
  | _, _ => []
  end.

End MediaPredicates.

Definition SLASH : char := 47%N.

(** ** A description of the entry a build leaves in the feed

    The content, the log and the feed entry that [build_entry] produces,
    written as functions of the entry; [build_entry_exact] proves that
    the builder computes them. *)

Section EntryDescription.

Variable regex : Type.
Variable re_compile : str -> option regex.
Variable re_match : regex -> str -> option match_obj.
Variable title_config : result (option (list pattern_info)).
Variable markdown : str -> result str.
Variable HOST : str.
Variable PORT : Z.
Variable get_rule_media_path : Z -> result str.
Variable DEFAULT_TIMEZONE : Z.
Variable clock : nat -> Z.
Variable published_ok : datetime -> bool.
Variable fromisoformat : str -> option datetime.

(** what the first pass appends for one media item that has a type *)
Definition embed_fragment (rule_id : Z) (m : Media) : str :=
  let url := full_media_url HOST PORT rule_id m in
  match m_type m with
  | None => []
  | Some t =>
    if startswith (u "image/") t then
      match get_rule_media_path rule_id with
      | Ok _ => Fragment.img_tag url (m_filename m)
      | Raise _ => []
      end
    else if startswith (u "video/") t then
      Fragment.video_player url t (display_name m)
    else if startswith (u "audio/") t then
      Fragment.audio_player url t (display_name m)
    else Fragment.file_tag url (display_name m)
  end.

(** what the first pass logs for it *)
Definition embed_log (rule_id : Z) (m : Media) : list log_record :=
  match m_type m with
  | None => []
  | Some t =>
    if startswith (u "image/") t then
      match get_rule_media_path rule_id with
      | Ok _ => []
      | Raise e => [LogImageError e]
      end
    else []
  end.

(** what the second pass logs for one media item *)
Definition attach_log (m : Media) : list log_record :=
  match m_type m, m_size m with
  | Some _, Some _ => []
  | _, _ => [LogEnclosureError AttributeError]
  end.

Definition title_and_text (entry : Entry) : str * str :=
  extract_telegram_title_and_content regex re_compile re_match title_config
    (Some (match truthy (e_content entry) with Some c => c | None => [] end)).

(** the content when the emptiness check runs *)
Definition embedded_body (entry : Entry) : str :=
  convert_markdown_to_html markdown (snd (title_and_text entry))
  ++ List.concat (map (embed_fragment (e_rule_id entry)) (e_media entry)).

(** the final content *)
Definition body_of (entry : Entry) : str :=
  attach_contents HOST PORT (e_rule_id entry) (e_media entry)
    (normalize (ensure_markup (fst (ensure_nonempty (e_media entry)
                                      (embedded_body entry))))).

(** the published time, for a clock that has been read [k] times *)
Definition published_of (entry : Entry) (k : nat) : datetime :=
  match fromisoformat (e_published entry) with
  | Some dt => if published_ok dt then dt else now_in clock DEFAULT_TIMEZONE k
  | None => now_in clock DEFAULT_TIMEZONE k
  end.

(** whether the build reads the clock *)
Definition reads_clock (entry : Entry) : bool :=
  match fromisoformat (e_published entry) with
  | Some dt => negb (published_ok dt)
  | None => true
  end.

Definition built_entry (entry : Entry) (k : nat) : FeedEntry :=
  {| fe_id := py_or (e_id entry) (e_message_id entry);
     fe_title := Some (fst (title_and_text entry));
     fe_content := Some (body_of entry);
     fe_description := Some (body_of entry);
     fe_published := Some (published_of entry k);
     fe_author := truthy (e_author entry);
     fe_link := truthy (e_link entry);
     fe_enclosures :=
       flat_map (enclosures_of HOST PORT (e_rule_id entry)) (e_media entry) |}.

Definition built_log (entry : Entry) : list log_record :=
  List.concat (map (embed_log (e_rule_id entry)) (e_media entry))
  ++ List.concat (map attach_log (e_media entry)).

(** the entries of the feed, for a clock read [k] times before *)
Fixpoint built_entries (entries : list Entry) (k : nat) : list FeedEntry :=
  match entries with
  | [] => []
  | entry :: rest =>
    built_entry entry k
    :: built_entries rest (k + (if reads_clock entry then 1 else 0))%nat
  end.

(** an entry whose media all have a type and whose published time the
    feed entry takes, whenever it is built *)
Definition buildable (entry : Entry) : Prop :=
  Forall (fun m => m_type m <> None) (e_media entry) /\
  forall k, published_ok (published_of entry k) = true.

End EntryDescription.

(** [fe] after some more calls of [fe.enclosure] *)
Definition add_enclosures (vs : list enclosure) (fe : FeedEntry) : FeedEntry :=
  {| fe_id := fe_id fe; fe_title := fe_title fe; fe_content := fe_content fe;
     fe_description := fe_description fe; fe_published := fe_published fe;
     fe_author := fe_author fe; fe_link := fe_link fe;
     fe_enclosures := fe_enclosures fe ++ vs |}.

Definition mk_state (fe : FeedEntry) (c : str) (log : list log_record) (k : nat)
  : build_state :=
  {| st_fe := fe; st_content := c; st_log := log; st_clock := k |}.

(** [sep] does not start at any position of [a] in the text [a ++ b] *)
Fixpoint no_start (sep a b : str) : Prop :=
  match a with
  | [] => True
  | x :: a' => startswith sep (x :: a' ++ b) = false /\ no_start sep a' b
  end.

(** the id and the title of a feed entry *)
Definition id_and_title (fe : FeedEntry) : option str * option str :=
  (fe_id fe, fe_title fe).

(** the computation leaves the field [f] of the feed entry as it is,
    also when it raises *)
Definition keeps {X A : Type} (f : FeedEntry -> X) (m : M A) : Prop :=
  forall st, f (st_fe (fst (m st))) = f (st_fe st).

(** [s] has no character [c] *)
Definition lacks (c : char) (s : str) : Prop := Forall (fun x => x <> c) s.

(** [r] is what is left of [s] after a prefix *)
Definition suffix_of (r s : str) : Prop := exists pre, s = pre ++ r.

(** [s.endswith(p)] as a proposition *)
Definition ends_with (p s : str) : Prop := exists a, s = a ++ p.

(** [s] neither starts nor ends with whitespace *)
Definition trimmed (s : str) : Prop :=
  match s with c :: _ => isspace c = false | [] => True end /\
  match rev s with c :: _ => isspace c = false | [] => True end.

Definition LT : char := 60%N.

(** no proper non-empty suffix of [p] starts [b]: an occurrence of [p]
    in a text that is followed by [b] does not run into [b] *)
Fixpoint inert (p b : str) : Prop :=
  match p with
  | [] => True
  | _ :: p' => (p' = [] \/ startswith p' b = false) /\ inert p' b
  end.

(** the matcher [m] matches at no position of [s] *)
Fixpoint unmatched (m : str -> option (str * nat)) (s : str) : Prop :=
  match s with
  | [] => True
  | _ :: t => m s = None /\ unmatched m t
  end.

(* ------------------------------------------------------------------ *)
(** * Properties *)

(** ** Strings *)

Lemma lstrip_no_leading_space (s : str) :
  match lstrip s with
  | c :: _ => isspace c = false
  | [] => True
  end.
Proof.
  induction s as [|c s IH]; simpl; [exact I|].
  destruct (isspace c) eqn:E; [exact IH|exact E].
Qed.

Lemma lstrip_suffix (s : str) :
  exists ws, Forall (fun c => isspace c = true) ws /\ s = ws ++ lstrip s.
Proof.
  induction s as [|c s [ws [Hws Heq]]]; simpl.
  - exists []; split; [constructor|reflexivity].
  - destruct (isspace c) eqn:E.
    + exists (c :: ws); split; [constructor; assumption|].
      simpl; f_equal; exact Heq.
    + exists []; split; [constructor|reflexivity].
Qed.

(** ** Title extraction *)

Section ExtractionProperties.

Variable regex : Type.
Variable re_compile : str -> option regex.
Variable re_match : regex -> str -> option match_obj.

Lemma try_patterns_skip (content : str) (pre rest : list pattern_info) :
  Forall (no_match regex re_compile re_match content) pre ->
  try_patterns regex re_compile re_match (pre ++ rest) content =
  try_patterns regex re_compile re_match rest content.
Proof.
  induction 1 as [|p pre Hp _ IH]; [reflexivity|].
  destruct Hp as (ps & d & r & Hps & Hd & Hc & Hm).
  simpl. rewrite Hps, Hd. simpl. rewrite Hc, Hm. exact IH.
Qed.

Lemma try_patterns_none (content : str) (ps : list pattern_info) :
  Forall (no_match regex re_compile re_match content) ps ->
  try_patterns regex re_compile re_match ps content = Ok None.
Proof.
  intros H. rewrite <- (app_nil_r ps).
  rewrite (try_patterns_skip content ps [] H). reflexivity.
Qed.

Lemma try_patterns_hit (content : str) (p : pattern_info) (rest : list pattern_info)
    (m : match_obj) (g : option str) :
  matches_with regex re_compile re_match content p m -> group1 m = Ok g ->
  try_patterns regex re_compile re_match (p :: rest) content =
  Ok (Some (clean_title g, lstrip (slice_from (m_end m) content))).
Proof.
  intros (ps & d & r & Hps & Hd & Hc & Hm) Hg.
  simpl. rewrite Hps, Hd. simpl. rewrite Hc, Hm, Hg. reflexivity.
Qed.

Lemma slice_to_length (n : nat) (s : str) : (List.length (slice_to n s) <= n)%nat.
Proof. unfold slice_to. rewrite length_firstn. lia. Qed.

(** C6. Extraction returns a pair on every input: the empty pair for
    absent or empty content, and the empty title with the content as it
    came whenever anything inside the [try] block raises. *)
Theorem extract_never_aborts
    (title_config : result (option (list pattern_info))) :
  extract_telegram_title_and_content regex re_compile re_match title_config None
    = ([], []) /\
  extract_telegram_title_and_content regex re_compile re_match title_config (Some [])
    = ([], []) /\
  forall (content : str) (e : exn),
    extract_try regex re_compile re_match title_config content = Raise e ->
    extract_telegram_title_and_content regex re_compile re_match title_config
      (Some content) = ([], content).
Proof.
  split; [reflexivity|]. split; [reflexivity|].
  intros content e H. unfold extract_telegram_title_and_content.
  destruct content as [|c0 content0]; [reflexivity|].
  rewrite H. reflexivity.
Qed.

End ExtractionProperties.

(** ** Substring tests *)

Lemma startswith_refl_app (p x : str) : startswith p (p ++ x) = true.
Proof.
  induction p as [|c p IH]; simpl; [reflexivity|].
  rewrite N.eqb_refl. exact IH.
Qed.

Lemma startswith_app_l (p s x : str) :
  startswith p s = true -> startswith p (s ++ x) = true.
Proof.
  revert s. induction p as [|c p IH]; intros s H; [reflexivity|].
  destruct s as [|d s]; simpl in *; [discriminate|].
  apply andb_true_iff in H. destruct H as [H1 H2].
  rewrite H1. simpl. apply IH. exact H2.
Qed.

Lemma contains_unfold (p s : str) :
  contains p s =
  startswith p s || match s with [] => false | _ :: s' => contains p s' end.
Proof. destruct s; reflexivity. Qed.

Lemma contains_app_l (p s x : str) :
  contains p s = true -> contains p (s ++ x) = true.
Proof.
  induction s as [|c s IH]; intros H.
  - simpl in H. rewrite orb_false_r in H.
    destruct p; [|discriminate]. destruct x; reflexivity.
  - rewrite contains_unfold in H. apply orb_true_iff in H.
    change ((c :: s) ++ x) with (c :: (s ++ x)). rewrite contains_unfold.
    apply orb_true_iff. destruct H as [H|H].
    + left. apply (startswith_app_l p (c :: s) x H).
    + right. apply IH. exact H.
Qed.

Lemma contains_app_r (p s x : str) :
  contains p x = true -> contains p (s ++ x) = true.
Proof.
  intros H. induction s as [|c s IH]; [exact H|].
  change ((c :: s) ++ x) with (c :: (s ++ x)). rewrite contains_unfold.
  rewrite IH. apply orb_true_r.
Qed.

Lemma contains_middle (a p b : str) : contains p (a ++ p ++ b) = true.
Proof.
  apply contains_app_r. rewrite contains_unfold.
  rewrite startswith_refl_app. reflexivity.
Qed.

Lemma app_nonempty (a b : str) : a <> [] -> a ++ b <> [].
Proof. destruct a; [contradiction|discriminate]. Qed.

(** ** Markdown rendering *)

Lemma render_empty (markdown : str -> result str) :
  convert_markdown_to_html markdown [] = [].
Proof. reflexivity. Qed.

Lemma fallback_nonempty (text : str) : fallback_html text <> [].
Proof. unfold fallback_html. apply app_nonempty. vm_compute. discriminate. Qed.

(** When the converter raises, the handler runs on the preprocessed
    text. *)
Lemma render_fallback (markdown : str -> result str) (text : str) (e : exn) :
  text <> [] ->
  markdown (preprocess text) = Raise e ->
  convert_markdown_to_html markdown text = fallback_html (preprocess text).
Proof.
  intros Hne H. unfold convert_markdown_to_html.
  destruct text; [contradiction|]. rewrite H. reflexivity.
Qed.

(** C7. The text of two lines separated by a blank line, with a
    converter that raises: the handler receives the preprocessed text,
    in which no two line breaks are adjacent any more, so the result has
    no paragraph boundary and carries the sentinel and the padding; the
    fallback rule applied to the input gives two paragraphs. *)
Theorem render_fallback_on_blank_line :
  let text := u "a" ++ [LF; LF] ++ u "b" in
  convert_markdown_to_html (fun _ => Raise RuntimeError) text
    = u "<p>a  <br>  <br><!-- paragraph -->  <br>  <br>b  </p>" /\
  fallback_html text = u "<p>a</p><p>b</p>" /\
  convert_markdown_to_html (fun _ => Raise RuntimeError) text <> fallback_html text.
Proof.
  split; [vm_compute; reflexivity|].
  split; [vm_compute; reflexivity|].
  vm_compute. discriminate.
Qed.

(** ** Steps of the entry builder *)

Lemma steady_ret {A : Type} (a : A) : steady (ret a).
Proof. intros st. exists st, a. split; reflexivity. Qed.

Lemma steady_bind {A B : Type} (m : M A) (k : A -> M B) :
  steady m -> (forall a, steady (k a)) -> steady (bindM m k).
Proof.
  intros Hm Hk st. destruct (Hm st) as (st1 & a & E1 & C1).
  destruct (Hk a st1) as (st2 & b & E2 & C2).
  exists st2, b. unfold bindM. rewrite E1. split; [exact E2|congruence].
Qed.

Lemma steady_try {A : Type} (body : M A) (handler : exn -> M A) :
  (forall st, st_clock (fst (body st)) = st_clock st) ->
  (forall e, steady (handler e)) ->
  steady (try_except body handler).
Proof.
  intros Hb Hh st. unfold try_except. specialize (Hb st).
  destruct (body st) as [st1 [a|e]] eqn:E; simpl in Hb.
  - exists st1, a. split; [reflexivity|exact Hb].
  - destruct (Hh e st1) as (st2 & a & E2 & C2).
    exists st2, a. split; [exact E2|congruence].
Qed.

Lemma steady_get_content : steady get_content.
Proof. intros st. exists st, (st_content st). split; reflexivity. Qed.

Lemma steady_set_content (c : str) : steady (set_content c).
Proof. intros st. eexists _, tt. split; reflexivity. Qed.

Lemma steady_append_content (c : str) : steady (append_content c).
Proof. intros st. eexists _, tt. split; reflexivity. Qed.

Lemma steady_modify_fe (f : FeedEntry -> FeedEntry) : steady (modify_fe f).
Proof. intros st. eexists _, tt. split; reflexivity. Qed.

Lemma steady_log_error (r : log_record) : steady (log_error r).
Proof. intros st. eexists _, tt. split; reflexivity. Qed.

Create HintDb steady.

#[local] Hint Resolve steady_ret steady_get_content steady_set_content
  steady_append_content steady_modify_fe steady_log_error : steady.

Lemma timeless_steady {A : Type} (m : M A) : steady m -> timeless m.
Proof. intros H st. destruct (H st) as (st' & a & E & C). rewrite E. exact C. Qed.

Lemma timeless_lift {A : Type} (r : result A) : timeless (lift r).
Proof. intros st. reflexivity. Qed.

Lemma timeless_bind {A B : Type} (m : M A) (k : A -> M B) :
  timeless m -> (forall a, timeless (k a)) -> timeless (bindM m k).
Proof.
  intros Hm Hk st. unfold bindM. specialize (Hm st).
  destruct (m st) as [st1 [a|e]]; simpl in *; [|exact Hm].
  rewrite (Hk a st1). exact Hm.
Qed.

Section BuildProperties.

Variable regex : Type.
Variable re_compile : str -> option regex.
Variable re_match : regex -> str -> option match_obj.
Variable title_config : result (option (list pattern_info)).
Variable markdown : str -> result str.
Variable HOST : str.
Variable PORT : Z.
Variable get_rule_media_path : Z -> result str.
Variable DEFAULT_TIMEZONE : Z.
Variable clock : nat -> Z.
Variable published_ok : datetime -> bool.
Variable fromisoformat : str -> option datetime.

#[local] Abbreviation url_of := (full_media_url HOST PORT).
#[local] Abbreviation embed_media' := (embed_media HOST PORT get_rule_media_path).
#[local] Abbreviation embed_all' := (embed_all HOST PORT get_rule_media_path).
#[local] Abbreviation attach_media' := (attach_media HOST PORT).
#[local] Abbreviation attach_all' := (attach_all HOST PORT).
#[local] Abbreviation start_entry' :=
  (start_entry regex re_compile re_match title_config markdown).
#[local] Abbreviation set_published_time' :=
  (set_published_time DEFAULT_TIMEZONE clock published_ok fromisoformat).
#[local] Abbreviation build_entry' :=
  (build_entry regex re_compile re_match title_config markdown HOST PORT
     get_rule_media_path DEFAULT_TIMEZONE clock published_ok fromisoformat).

Lemma steady_start_entry (entry : Entry) : steady (start_entry' entry).
Proof.
  unfold start_entry.
  destruct (extract_telegram_title_and_content _ _ _ _ _) as [t c].
  repeat (apply steady_bind; [auto with steady|intros ?]). auto with steady.
Qed.

Lemma steady_fix_content (entry : Entry) : steady (fix_content entry).
Proof.
  unfold fix_content. apply steady_bind; [auto with steady|intros ?].
  auto with steady.
Qed.

Lemma steady_store_content : steady store_content.
Proof.
  unfold store_content.
  repeat (apply steady_bind; [auto with steady|intros ?]). auto with steady.
Qed.

Lemma steady_set_author_and_link (entry : Entry) :
  steady (set_author_and_link entry).
Proof.
  unfold set_author_and_link. apply steady_bind; [|intros ?].
  - destruct (truthy (e_author entry)); auto with steady.
  - destruct (truthy (e_link entry)); auto with steady.
Qed.

Lemma steady_attach_media (rule_id : Z) (m : Media) :
  steady (attach_media' rule_id m).
Proof.
  unfold attach_media. apply steady_try; [|auto with steady].
  apply timeless_bind; [apply timeless_lift|intros t].
  apply timeless_bind; [apply timeless_steady; auto with steady|intros c].
  apply timeless_bind.
  - apply timeless_steady. destruct (_ && _); auto with steady.
  - intros _. apply timeless_bind; [apply timeless_lift|intros ?].
    apply timeless_steady. auto with steady.
Qed.

Lemma steady_attach_all (rule_id : Z) (media : list Media) :
  steady (attach_all' rule_id media).
Proof.
  induction media as [|m media IH]; simpl; [auto with steady|].
  apply steady_bind; [apply steady_attach_media|intros _; exact IH].
Qed.

(** *** The first pass *)

Lemma bind_lift_ok {A B : Type} (a : A) (k : A -> M B) :
  bindM (lift (Ok a)) k = k a.
Proof. reflexivity. Qed.

Lemma bind_lift_raise {A B : Type} (e : exn) (k : A -> M B) :
  bindM (lift (Raise e)) k = lift (Raise e).
Proof. reflexivity. Qed.

Lemma embed_media_fragment (rule_id : Z) (m : Media) :
  embeds_cleanly get_rule_media_path rule_id m ->
  exists frag, frag <> [] /\
    forall st, embed_media' rule_id m st = (with_content st (st_content st ++ frag), Ok tt).
Proof.
  intros (t & Ht & Himg). unfold embed_media. rewrite Ht.
  unfold getattr. rewrite bind_lift_ok.
  destruct (startswith (u "image/") t) eqn:E1.
  - destruct (Himg eq_refl) as [p Hp]. rewrite Hp.
    exists (Fragment.img_tag (url_of rule_id m) (m_filename m)). split.
    + apply app_nonempty. vm_compute. discriminate.
    + intros st. reflexivity.
  - destruct (startswith (u "video/") t) eqn:E2;
      [|destruct (startswith (u "audio/") t) eqn:E3].
    + exists (Fragment.video_player (url_of rule_id m) t (display_name m)). split.
      * apply app_nonempty. vm_compute. discriminate.
      * intros st. reflexivity.
    + exists (Fragment.audio_player (url_of rule_id m) t (display_name m)). split.
      * apply app_nonempty. vm_compute. discriminate.
      * intros st. reflexivity.
    + exists (Fragment.file_tag (url_of rule_id m) (display_name m)). split.
      * apply app_nonempty. vm_compute. discriminate.
      * intros st. reflexivity.
Qed.

Lemma embed_all_fragments (rule_id : Z) (media : list Media) :
  Forall (embeds_cleanly get_rule_media_path rule_id) media ->
  exists frags, (media <> [] -> frags <> []) /\
    forall st, embed_all' rule_id media st = (with_content st (st_content st ++ frags), Ok tt).
Proof.
  induction 1 as [|m media Hm _ (frags & Hne & IH)].
  - exists []. split; [intros H; contradiction|].
    intros st. simpl. unfold ret, with_content. rewrite app_nil_r.
    destruct st; reflexivity.
  - destruct (embed_media_fragment rule_id m Hm) as (frag & Hfrag & Hstep).
    exists (frag ++ frags). split; [intros _; apply app_nonempty; exact Hfrag|].
    intros st. simpl. unfold bindM. rewrite Hstep, IH.
    unfold with_content. simpl. rewrite app_assoc. reflexivity.
Qed.

(** C10. For an entry whose media items all append their fragment
    without a fault, the content at the emptiness check is the rendered
    text followed by the fragments: it is non-empty as soon as there is
    a media item, the check then leaves it as it is, the
    count-of-attachments sentence is not appended, and the placeholder
    is substituted only when both the rendered text and the media list
    are empty. *)
Theorem media_fragments_keep_body_nonempty (entry : Entry) (st : build_state) :
  Forall (embeds_cleanly get_rule_media_path (e_rule_id entry)) (e_media entry) ->
  exists st1 st2,
    start_entry' entry st = (st1, Ok tt) /\
    embed_all' (e_rule_id entry) (e_media entry) st1 = (st2, Ok tt) /\
    (e_media entry <> [] ->
       st_content st2 <> [] /\
       ensure_nonempty (e_media entry) (st_content st2) = (st_content st2, false)) /\
    snd (ensure_nonempty (e_media entry) (st_content st2)) = false /\
    (fst (ensure_nonempty (e_media entry) (st_content st2)) <> st_content st2 ->
       e_media entry = [] /\ st_content st1 = []).
Proof.
  intros Hall.
  destruct (steady_start_entry entry st) as (st1 & [] & E1 & _).
  destruct (embed_all_fragments _ _ Hall) as (frags & Hne & E2).
  exists st1, (with_content st1 (st_content st1 ++ frags)).
  split; [exact E1|]. split; [apply E2|].
  simpl st_content.
  assert (Hmedia : e_media entry <> [] ->
            st_content st1 ++ frags <> [] /\
            ensure_nonempty (e_media entry) (st_content st1 ++ frags)
              = (st_content st1 ++ frags, false)).
  { intros Hm. specialize (Hne Hm).
    destruct (st_content st1 ++ frags) as [|c s] eqn:E.
    - apply app_eq_nil in E. destruct E as [_ E]. contradiction.
    - split; [discriminate|reflexivity]. }
  split; [exact Hmedia|].
  destruct (e_media entry) as [|m media] eqn:Em.
  - split.
    + destruct (st_content st1 ++ frags); reflexivity.
    + intros Hsub. split; [reflexivity|].
      destruct (st_content st1 ++ frags) as [|c s] eqn:E.
      * apply app_eq_nil in E. exact (proj1 E).
      * simpl in Hsub. contradiction.
  - destruct Hmedia as [_ Hens]; [discriminate|]. rewrite Hens. simpl.
    split; [reflexivity|]. intros Hsub. contradiction.
Qed.

(** *** The second pass *)

Lemma attach_media_content (rule_id : Z) (m : Media) (st : build_state) :
  st_content (fst (attach_media' rule_id m st)) =
  attach_content HOST PORT rule_id m (st_content st).
Proof.
  unfold attach_media, attach_content, try_except.
  destruct (m_type m) as [t|]; [|reflexivity].
  unfold getattr. rewrite bind_lift_ok. unfold bindM at 1. unfold get_content at 1.
  destruct (startswith (u "image/") t && negb (contains (url_of rule_id m) (st_content st)));
    destruct (m_size m); reflexivity.
Qed.

Lemma attach_all_content (rule_id : Z) (media : list Media) (st : build_state) :
  st_content (fst (attach_all' rule_id media st)) =
  attach_contents HOST PORT rule_id media (st_content st).
Proof.
  revert st. induction media as [|m media IH]; intros st; [reflexivity|].
  simpl. unfold bindM.
  destruct (steady_attach_media rule_id m st) as (st1 & [] & E & _).
  pose proof (attach_media_content rule_id m st) as Hc.
  rewrite E in *. simpl in Hc. rewrite IH, Hc. reflexivity.
Qed.

Lemma missing_img_tag_has_url (url filename : str) :
  contains url (Fragment.missing_img_tag url filename) = true.
Proof. unfold Fragment.missing_img_tag. apply contains_middle. Qed.

Lemma img_tag_has_url (url filename : str) :
  contains url (Fragment.img_tag url filename) = true.
Proof. unfold Fragment.img_tag. apply contains_middle. Qed.

Lemma attach_content_extends (rule_id : Z) (m : Media) (c : str) :
  exists x, attach_content HOST PORT rule_id m c = c ++ x.
Proof.
  unfold attach_content. destruct (m_type m) as [t|].
  - destruct (_ && _); [eexists; reflexivity|].
    exists []. rewrite app_nil_r. reflexivity.
  - exists []. rewrite app_nil_r. reflexivity.
Qed.

Lemma attach_contents_cons (rule_id : Z) (m : Media) (media : list Media) (c : str) :
  attach_contents HOST PORT rule_id (m :: media) c =
  attach_contents HOST PORT rule_id media (attach_content HOST PORT rule_id m c).
Proof. reflexivity. Qed.

Lemma attach_contents_extends (rule_id : Z) (media : list Media) (c : str) :
  exists x, attach_contents HOST PORT rule_id media c = c ++ x.
Proof.
  revert c. induction media as [|m media IH]; intros c.
  - exists []. rewrite app_nil_r. reflexivity.
  - rewrite attach_contents_cons.
    destruct (attach_content_extends rule_id m c) as [x Hx].
    destruct (IH (attach_content HOST PORT rule_id m c)) as [y Hy].
    exists (x ++ y). rewrite Hy, Hx. rewrite app_assoc. reflexivity.
Qed.

Lemma attach_content_covers (rule_id : Z) (m : Media) (c : str) :
  covered HOST PORT rule_id (attach_content HOST PORT rule_id m c) m.
Proof.
  intros t Ht Himg. unfold attach_content. rewrite Ht, Himg. simpl.
  destruct (contains (url_of rule_id m) c) eqn:E; simpl; [exact E|].
  apply contains_app_r. apply missing_img_tag_has_url.
Qed.

Lemma covered_app (rule_id : Z) (c x : str) (m : Media) :
  covered HOST PORT rule_id c m -> covered HOST PORT rule_id (c ++ x) m.
Proof. intros H t Ht Himg. apply contains_app_l. exact (H t Ht Himg). Qed.

Lemma attach_content_fixed (rule_id : Z) (m : Media) (c : str) :
  covered HOST PORT rule_id c m -> attach_content HOST PORT rule_id m c = c.
Proof.
  intros H. unfold attach_content. destruct (m_type m) as [t|] eqn:Ht; [|reflexivity].
  destruct (startswith (u "image/") t) eqn:Himg; [|reflexivity].
  rewrite (H t Ht Himg). reflexivity.
Qed.

Lemma attach_contents_fixed (rule_id : Z) (media : list Media) (c : str) :
  Forall (covered HOST PORT rule_id c) media -> attach_contents HOST PORT rule_id media c = c.
Proof.
  induction 1 as [|m media Hm _ IH]; [reflexivity|].
  rewrite attach_contents_cons, (attach_content_fixed _ _ _ Hm). exact IH.
Qed.

Lemma attach_contents_covers (rule_id : Z) (media : list Media) (c : str) :
  Forall (covered HOST PORT rule_id (attach_contents HOST PORT rule_id media c)) media.
Proof.
  revert c. induction media as [|m media IH]; intros c; [constructor|].
  rewrite attach_contents_cons. constructor; [|apply IH].
  destruct (attach_contents_extends rule_id media (attach_content HOST PORT rule_id m c)) as [x Hx].
  rewrite Hx. apply covered_app. apply attach_content_covers.
Qed.

(** The second pass is idempotent on the content, for every media list. *)
Lemma attach_contents_idempotent (rule_id : Z) (media : list Media) (c : str) :
  attach_contents HOST PORT rule_id media (attach_contents HOST PORT rule_id media c) =
  attach_contents HOST PORT rule_id media c.
Proof. apply attach_contents_fixed. apply attach_contents_covers. Qed.

(** *** Enclosures *)

Lemma attach_media_enclosures (rule_id : Z) (m : Media) (st : build_state) :
  fe_enclosures (st_fe (fst (attach_media' rule_id m st))) =
  fe_enclosures (st_fe st) ++ enclosures_of HOST PORT rule_id m.
Proof.
  unfold attach_media, enclosures_of, try_except.
  destruct (m_type m) as [t|]; [|simpl; rewrite app_nil_r; reflexivity].
  unfold getattr. rewrite bind_lift_ok. unfold bindM at 1. unfold get_content at 1.
  destruct (startswith (u "image/") t && negb (contains (url_of rule_id m) (st_content st)));
    destruct (m_size m); simpl; rewrite ?app_nil_r; reflexivity.
Qed.

(** One enclosure for each media item that has both attributes, in the
    order of the media; an item without one of them adds none and does
    not stop the others. *)
Lemma attach_all_enclosures (rule_id : Z) (media : list Media) (st : build_state) :
  fe_enclosures (st_fe (fst (attach_all' rule_id media st))) =
  fe_enclosures (st_fe st) ++ flat_map (enclosures_of HOST PORT rule_id) media.
Proof.
  revert st. induction media as [|m media IH]; intros st.
  - simpl. rewrite app_nil_r. reflexivity.
  - simpl attach_all. unfold bindM.
    destruct (steady_attach_media rule_id m st) as (st1 & [] & E & _).
    pose proof (attach_media_enclosures rule_id m st) as He.
    rewrite E in *. simpl in He. rewrite IH, He. simpl flat_map.
    rewrite app_assoc. reflexivity.
Qed.

(** *** The published time *)

Lemma steady_embed_media (rule_id : Z) (m : Media) :
  m_type m <> None -> steady (embed_media' rule_id m).
Proof.
  intros Ht. unfold embed_media. destruct (m_type m) as [t|]; [|contradiction].
  unfold getattr. rewrite bind_lift_ok.
  destruct (startswith (u "image/") t).
  - apply steady_try; [|auto with steady].
    apply timeless_bind; [apply timeless_lift|intros ?].
    apply timeless_steady. auto with steady.
  - destruct (startswith (u "video/") t); [auto with steady|].
    destruct (startswith (u "audio/") t); auto with steady.
Qed.

Lemma steady_embed_all (rule_id : Z) (media : list Media) :
  Forall (fun m => m_type m <> None) media -> steady (embed_all' rule_id media).
Proof.
  induction 1 as [|m media Hm _ IH]; simpl; [auto with steady|].
  apply steady_bind; [apply steady_embed_media; exact Hm|intros _; exact IH].
Qed.

(** *** The entry loop *)

Abbreviation add_one' :=
  (add_one regex re_compile re_match title_config markdown HOST PORT
     get_rule_media_path DEFAULT_TIMEZONE clock published_ok fromisoformat).

Lemma add_one_entries (fg : Feed) (entry : Entry) :
  exists fe, fg_entries (add_one' fg entry) = fe :: fg_entries fg.
Proof.
  unfold add_one. destruct (build_entry _ _ _ _ _ _ _ _ _ _ _ _ _ _) as [st [[]|e]];
    eexists; reflexivity.
Qed.

Lemma fold_add_one_length (entries : list Entry) (fg : Feed) :
  List.length (fg_entries (fold_left add_one' entries fg)) =
  (List.length (fg_entries fg) + List.length entries)%nat.
Proof.
  revert fg. induction entries as [|e entries IH]; intros fg; simpl; [lia|].
  rewrite IH. destruct (add_one_entries fg e) as [fe Hfe]. rewrite Hfe.
  simpl. lia.
Qed.

(** Every input entry leaves one entry in the feed, whether its build
    returned or raised. *)
Lemma feed_keeps_every_entry (rule_id : Z) (entries : list Entry) :
  List.length (fg_entries
    (generate_feed_from_entries regex re_compile re_match title_config markdown
       HOST PORT get_rule_media_path DEFAULT_TIMEZONE clock published_ok
       fromisoformat rule_id entries)) = List.length entries.
Proof.
  unfold generate_feed_from_entries. rewrite fold_add_one_length.
  destruct entries; reflexivity.
Qed.


End BuildProperties.

(* ------------------------------------------------------------------ *)
(** * Further properties of the service *)

(** ** Scans *)

Lemma scan_Forall (P : char -> Prop) (m : str -> option (str * nat)) :
  (forall t r n, Forall P t -> m t = Some (r, n) -> Forall P r) ->
  forall s k, Forall P s -> Forall P (scan m k s).
Proof.
  intros Hm. induction s as [|c t IH]; intros k Hs; [constructor|].
  inversion Hs as [|? ? Hc Ht]; subst. simpl.
  destruct k as [|k]; [|apply IH; exact Ht].
  destruct (m (c :: t)) as [[r [|n]]|] eqn:E.
  - constructor; [exact Hc|apply IH; exact Ht].
  - apply Forall_app. split; [exact (Hm _ _ _ Hs E)|apply IH; exact Ht].
  - constructor; [exact Hc|apply IH; exact Ht].
Qed.

(** the characters of the result are kept characters or come from a
    replacement *)
Lemma scan_Forall_kept (Q : char -> Prop) (m : str -> option (str * nat)) :
  (forall t r n, m t = Some (r, S n) -> Forall Q r) ->
  (forall c t, m (c :: t) = None -> Q c) ->
  (forall c t r, m (c :: t) = Some (r, O) -> Q c) ->
  forall s k, Forall Q (scan m k s).
Proof.
  intros Hr Hn Hz. induction s as [|c t IH]; intros k; [constructor|].
  simpl. destruct k as [|k]; [|apply IH].
  destruct (m (c :: t)) as [[r [|n]]|] eqn:E.
  - constructor; [exact (Hz _ _ _ E)|apply IH].
  - apply Forall_app. split; [exact (Hr _ _ _ E)|apply IH].
  - constructor; [exact (Hn _ _ E)|apply IH].
Qed.

Lemma replace_char_lacks (c : char) (new s : str) :
  lacks c new -> lacks c (replace [c] new s).
Proof.
  intros Hnew. unfold replace, lacks. apply scan_Forall_kept.
  - intros t r n H. destruct (startswith [c] t); [|discriminate].
    injection H as <- _. exact Hnew.
  - intros x t H. simpl in H. destruct (c =? x)%N eqn:E; [discriminate|].
    apply N.eqb_neq in E. congruence.
  - intros x t r H. simpl in H. destruct (c =? x)%N; discriminate.
Qed.

Lemma replace_Forall (P : char -> Prop) (old new s : str) :
  Forall P new -> Forall P s -> Forall P (replace old new s).
Proof.
  intros Hnew Hs. unfold replace. apply scan_Forall; [|exact Hs].
  intros t r n _ H. destruct (startswith old t); [|discriminate].
  injection H as <- _. exact Hnew.
Qed.

Lemma Forall_firstn (P : char -> Prop) (n : nat) (s : str) :
  Forall P s -> Forall P (firstn n s).
Proof.
  revert n. induction s as [|c s IH]; intros [|n] H; simpl; try constructor.
  - inversion H; assumption.
  - inversion H; subst. apply IH. assumption.
Qed.

Lemma Forall_skipn (P : char -> Prop) (n : nat) (s : str) :
  Forall P s -> Forall P (skipn n s).
Proof.
  revert n. induction s as [|c s IH]; intros [|n] H; simpl; try assumption.
  inversion H; subst. apply IH. assumption.
Qed.

Lemma Forall_lstrip (P : char -> Prop) (s : str) :
  Forall P s -> Forall P (lstrip s).
Proof.
  induction 1 as [|c s Hc Hs IH]; simpl; [constructor|].
  destruct (isspace c); [exact IH|constructor; assumption].
Qed.

Lemma Forall_strip (P : char -> Prop) (s : str) :
  Forall P s -> Forall P (strip s).
Proof.
  intros H. unfold strip, rstrip. apply Forall_rev. apply Forall_lstrip.
  apply Forall_rev. apply Forall_lstrip. exact H.
Qed.

Lemma lstrip_fixed (s : str) :
  match s with c :: _ => isspace c = false | [] => True end -> lstrip s = s.
Proof. destruct s as [|c s]; [reflexivity|]. simpl. intros ->. reflexivity. Qed.

Lemma last_char_kept (a : str) (c x : char) (b : str) :
  rev (a ++ [c]) = x :: b -> x = c.
Proof. rewrite rev_app_distr. simpl. congruence. Qed.

Lemma strip_trimmed (s : str) : trimmed (strip s).
Proof.
  unfold trimmed, strip, rstrip. rewrite rev_involutive.
  split; [|apply lstrip_no_leading_space].
  pose proof (lstrip_no_leading_space s) as Hhead.
  destruct (lstrip_suffix (rev (lstrip s))) as (ws & Hws & Heq).
  set (r := lstrip (rev (lstrip s))) in *.
  assert (Hl : lstrip s = rev r ++ rev ws).
  { rewrite <- rev_app_distr, <- Heq, rev_involutive. reflexivity. }
  destruct (rev r) as [|c0 r0] eqn:Er; [exact I|].
  rewrite Hl in Hhead. exact Hhead.
Qed.

(** ** The text cleaners *)

Lemma clean_title_lacks_break (title : option str) : lacks LF (clean_title title).
Proof.
  destruct title as [[|c t]|]; try constructor.
  unfold clean_title. apply Forall_strip. apply (replace_char_lacks LF).
  constructor; [discriminate|constructor].
Qed.

Lemma clean_title_trimmed (title : option str) : trimmed (clean_title title).
Proof.
  destruct title as [[|c t]|]; try (split; exact I).
  unfold clean_title. apply strip_trimmed.
Qed.

Lemma sub_link_lacks (c : char) (s : str) : lacks c s -> lacks c (Re.sub_link s).
Proof.
  intros H. unfold Re.sub_link, lacks. apply scan_Forall; [|exact H].
  intros t r n Ht Hm. unfold Re.link_at in Hm.
  destruct t as [|c0 s0]; [discriminate|].
  inversion Ht as [|? ? _ Hs0]; subst.
  destruct (Re.chr_is Re.LBRACK c0); [|discriminate].
  destruct (span_len (Re.chr_isnot Re.RBRACK) s0) as [|k] eqn:Ek; [discriminate|].
  destruct (skipn (S k) s0) as [|c1 [|c2 r2]]; try discriminate.
  destruct (Re.chr_is Re.RBRACK c1 && Re.chr_is Re.LPAREN c2); [|discriminate].
  destruct (span_len (Re.chr_isnot Re.RPAREN) r2) as [|k2]; [discriminate|].
  destruct (skipn (S k2) r2) as [|c3 r3]; [discriminate|].
  destruct (Re.chr_is Re.RPAREN c3); [|discriminate].
  injection Hm as <- _.
  exact (Forall_firstn (fun x => x <> c) (S k) s0 Hs0).
Qed.

(** X1. A cleaned title has no emphasis marker and no line break, and
    neither starts nor ends with whitespace. *)
Theorem clean_title_is_clean (title : option str) :
  lacks Re.STAR (clean_title title) /\
  lacks LF (clean_title title) /\
  trimmed (clean_title title).
Proof.
  split; [|split; [apply clean_title_lacks_break|apply clean_title_trimmed]].
  destruct title as [[|c t]|]; try constructor.
  unfold clean_title. apply Forall_strip. apply replace_Forall.
  - constructor; [discriminate|constructor].
  - apply sub_link_lacks. apply (replace_char_lacks Re.STAR). constructor.
Qed.

Lemma firstn_span_Forall (f : char -> bool) (n : nat) (s : str) :
  (n <= span_len f s)%nat -> Forall (fun c => f c = true) (firstn n s).
Proof.
  revert n. induction s as [|c s IH]; intros [|n] H; simpl; try constructor.
  - simpl in H. destruct (f c) eqn:E; [reflexivity|lia].
  - apply IH. simpl in H. destruct (f c); lia.
Qed.

Lemma blank_lines_end_bound (s : str) (i best : nat) :
  (best <= i)%nat ->
  (Re.blank_lines_end s i best <= i + span_len isspace s)%nat.
Proof.
  revert i best. induction s as [|c s IH]; intros i best H; simpl; [lia|].
  destruct (isspace c); [|lia].
  specialize (IH (S i) (if Re.chr_is LF c then S i else best)).
  destruct (Re.chr_is LF c); lia.
Qed.

Lemma sub_leading_stars_prefix (s : str) :
  exists stars ws,
    s = stars ++ ws ++ Re.sub_leading_stars s /\
    (List.length stars <= 2)%nat /\
    Forall (fun c => c = Re.STAR) stars /\
    Forall (fun c => isspace c = true) ws.
Proof.
  assert (Hstar : forall c, Re.chr_is Re.STAR c = true -> c = Re.STAR).
  { intros c H. apply N.eqb_eq. exact H. }
  destruct s as [|c1 t1].
  { exists (@nil char), (@nil char). repeat split; simpl; try lia; constructor. }
  unfold Re.sub_leading_stars. destruct (Re.chr_is Re.STAR c1) eqn:E1.
  - destruct t1 as [|c2 t2].
    + exists [c1], []. repeat split; simpl; auto.
    + destruct (Re.chr_is Re.STAR c2) eqn:E2.
      * destruct (lstrip_suffix t2) as (ws & Hws & Heq).
        exists [c1; c2], ws. split; [|repeat split; simpl; auto].
        rewrite <- Heq. reflexivity.
      * destruct (lstrip_suffix (c2 :: t2)) as (ws & Hws & Heq).
        exists [c1], ws. split; [|repeat split; simpl; auto].
        rewrite <- Heq. reflexivity.
  - exists [], []. repeat split; simpl; auto.
Qed.

Lemma clean_content_prefix (content : str) :
  exists stars ws,
    content = stars ++ ws ++ clean_content content /\
    (List.length stars <= 2)%nat /\
    Forall (fun c => c = Re.STAR) stars /\
    Forall (fun c => isspace c = true) ws.
Proof.
  destruct content as [|c0 t0].
  { exists (@nil char), (@nil char). repeat split; simpl; try lia; constructor. }
  unfold clean_content. set (content := c0 :: t0).
  destruct (sub_leading_stars_prefix content) as (stars & ws1 & Heq & Hlen & Hstars & Hws1).
  set (s1 := Re.sub_leading_stars content) in *.
  unfold Re.sub_leading_blank_lines.
  set (n := Re.blank_lines_end s1 0 0).
  exists stars, (ws1 ++ firstn n s1). split; [|split; [|split]].
  - rewrite <- app_assoc, firstn_skipn. exact Heq.
  - exact Hlen.
  - exact Hstars.
  - apply Forall_app. split; [exact Hws1|].
    apply firstn_span_Forall.
    exact (blank_lines_end_bound s1 0 0 (Nat.le_refl 0)).
Qed.

(** X2. Cleaning the content only removes a prefix: at most two
    emphasis markers followed by whitespace; what remains is the rest
    of the content, unchanged. *)
Theorem clean_content_strips_prefix (content : str) :
  exists stars ws,
    content = stars ++ ws ++ clean_content content /\
    (List.length stars <= 2)%nat /\
    Forall (fun c => c = Re.STAR) stars /\
    Forall (fun c => isspace c = true) ws.
Proof.
  destruct content as [|c0 t0].
  { exists (@nil char), (@nil char). repeat split; simpl; try lia; constructor. }
  unfold clean_content. set (content := c0 :: t0).
  destruct (sub_leading_stars_prefix content) as (stars & ws1 & Heq & Hlen & Hstars & Hws1).
  set (s1 := Re.sub_leading_stars content) in *.
  unfold Re.sub_leading_blank_lines.
  set (n := Re.blank_lines_end s1 0 0).
  exists stars, (ws1 ++ firstn n s1). split; [|split; [|split]].
  - rewrite <- app_assoc, firstn_skipn. exact Heq.
  - exact Hlen.
  - exact Hstars.
  - apply Forall_app. split; [exact Hws1|].
    apply firstn_span_Forall.
    pose proof (blank_lines_end_bound s1 0 0 (Nat.le_refl 0)). exact H.
Qed.

(** ** Extraction with a pattern file that loads *)

Lemma blank_lines_end_prefix (ws : str) (c : char) (tail : str) (i best : nat) :
  Forall (fun x => isspace x = true) ws -> isspace c = false ->
  Re.blank_lines_end (ws ++ LF :: c :: tail) i best = S (i + List.length ws).
Proof.
  intros Hws Hc. revert i best.
  induction Hws as [|x ws Hx _ IH]; intros i best.
  - simpl. change (isspace LF) with true. cbv iota.
    change (Re.chr_is LF LF) with true. cbv iota.
    rewrite Hc. lia.
  - simpl. rewrite Hx, IH. simpl. lia.
Qed.

Lemma sub_leading_stars_blank (ws : str) (c : char) (tail : str) :
  Forall (fun x => isspace x = true) ws ->
  Re.sub_leading_stars (ws ++ LF :: c :: tail) = ws ++ LF :: c :: tail.
Proof.
  intros Hws. destruct Hws as [|x ws Hx _]; [reflexivity|].
  simpl. unfold Re.chr_is.
  destruct (x =? Re.STAR)%N eqn:E; [|reflexivity].
  apply N.eqb_eq in E. subst x. vm_compute in Hx. discriminate.
Qed.

Lemma clean_title_lacks_star (title : option str) :
  lacks Re.STAR (clean_title title).
Proof.
  destruct title as [[|c t]|]; try constructor.
  unfold clean_title. apply Forall_strip. apply replace_Forall.
  - constructor; [discriminate|constructor].
  - apply sub_link_lacks. apply (replace_char_lacks Re.STAR). constructor.
Qed.

Section PatternExtraction.

Variable regex : Type.
Variable re_compile : str -> option regex.
Variable re_match : regex -> str -> option match_obj.

(** C4. When the pattern file loads and the first pattern that matches
    the non-empty content is [p] (the patterns before it compile and do
    not match at the start of the content), the title is group 1 of that
    match, cleaned: its emphasis markers removed, each markdown link
    replaced by its text, each line break by a space, and trimmed, so it
    has no marker, no line break and no whitespace at either end.  The
    content is the matched prefix (its first [m_end m] characters), then
    whitespace, then the remainder, which does not start with
    whitespace.  The patterns after [p] are not looked at. *)
Theorem extract_first_match
    (content : str) (pre post : list pattern_info) (p : pattern_info)
    (m : match_obj) (g : option str) :
  content <> [] ->
  Forall (no_match regex re_compile re_match content) pre ->
  matches_with regex re_compile re_match content p m ->
  group1 m = Ok g ->
  let '(title, remainder) :=
    extract_telegram_title_and_content regex re_compile re_match
      (Ok (Some (pre ++ p :: post))) (Some content) in
  title = match g with
          | Some (c :: t) =>
            strip (replace [LF] [SP] (Re.sub_link (replace [Re.STAR] [] (c :: t))))
          | _ => []
          end /\
  lacks Re.STAR title /\ lacks LF title /\ trimmed title /\
  (exists ws, Forall (fun c => isspace c = true) ws /\
              content = firstn (m_end m) content ++ ws ++ remainder) /\
  match remainder with c :: _ => isspace c = false | [] => True end.
Proof.
  intros Hne Hpre Hm Hg.
  unfold extract_telegram_title_and_content, extract_try.
  destruct content as [|c0 content0]; [contradiction|].
  simpl bind.
  rewrite (try_patterns_skip _ _ _ _ pre (p :: post) Hpre).
  rewrite (try_patterns_hit _ _ _ _ p post m g Hm Hg).
  simpl bind. set (content := c0 :: content0).
  split; [destruct g as [[|c t]|]; reflexivity|].
  split; [apply clean_title_lacks_star|].
  split; [apply clean_title_lacks_break|].
  split; [apply clean_title_trimmed|].
  split; [|apply lstrip_no_leading_space].
  destruct (lstrip_suffix (slice_from (m_end m) content)) as (ws & Hws & Heq).
  exists ws. split; [exact Hws|].
  unfold slice_from in *. rewrite <- Heq. symmetry. apply firstn_skipn.
Qed.

Lemma extract_none (content : str) (patterns : list pattern_info) :
  content <> [] ->
  Forall (no_match regex re_compile re_match content) patterns ->
  extract_telegram_title_and_content regex re_compile re_match
    (Ok (Some patterns)) (Some content)
  = (default_title content, content).
Proof.
  intros Hne Hall.
  unfold extract_telegram_title_and_content, extract_try.
  destruct content as [|c0 content0]; [contradiction|].
  simpl bind.
  rewrite (try_patterns_none _ _ _ _ patterns Hall).
  reflexivity.
Qed.


End PatternExtraction.

(** ** Extraction, whatever the pattern file and the engine *)

Lemma default_title_single_line (content : str) :
  lacks LF (default_title content) /\
  match default_title content with c :: _ => isspace c = false | [] => True end.
Proof.
  unfold default_title.
  set (clean := strip (replace [LF] [SP] (clean_content content))).
  assert (Hlf : lacks LF clean).
  { apply Forall_strip. apply (replace_char_lacks LF).
    constructor; [discriminate|constructor]. }
  assert (Hhead : match clean with c :: _ => isspace c = false | [] => True end)
    by apply strip_trimmed.
  assert (Hfirst : match slice_to 20 clean with
                   | c :: _ => isspace c = false | [] => True end).
  { destruct clean; simpl; [exact I|exact Hhead]. }
  destruct (20 <? List.length clean)%nat eqn:E.
  - split.
    + apply Forall_app. split; [apply Forall_firstn; exact Hlf|].
      vm_compute. repeat constructor; discriminate.
    + destruct clean as [|c s]; [discriminate|]. simpl. exact Hhead.
  - split; [apply Forall_firstn; exact Hlf|exact Hfirst].
Qed.

Section ExtractionInvariants.

Variable regex : Type.
Variable re_compile : str -> option regex.
Variable re_match : regex -> str -> option match_obj.
Variable title_config : result (option (list pattern_info)).

#[local] Abbreviation extract' :=
  (extract_telegram_title_and_content regex re_compile re_match title_config).

Lemma try_patterns_shape (ps : list pattern_info) (content t r : str) :
  try_patterns regex re_compile re_match ps content = Ok (Some (t, r)) ->
  exists g n, t = clean_title g /\ r = lstrip (slice_from n content).
Proof.
  induction ps as [|p ps IH]; simpl; [discriminate|].
  destruct (pi_pattern p) as [pattern_str|]; [|discriminate].
  destruct (pi_description p) as [desc|]; [|discriminate]. simpl.
  destruct (re_compile pattern_str) as [pattern|]; [|discriminate].
  destruct (re_match pattern content) as [m|]; [|exact IH].
  destruct (group1 m) as [g|e]; [|discriminate]. simpl.
  intros H. injection H as <- <-. exists g, (m_end m). split; reflexivity.
Qed.

(** the three ways out of the function for a non-empty content *)
Lemma extract_cases (c0 : char) (content0 : str) :
  (exists g n, extract' (@Some str (c0 :: content0)) =
               (clean_title g, lstrip (slice_from n (c0 :: content0)))) \/
  extract' (@Some str (c0 :: content0)) = (default_title (c0 :: content0), c0 :: content0) \/
  extract' (@Some str (c0 :: content0)) = ([], c0 :: content0).
Proof.
  unfold extract_telegram_title_and_content, extract_try.
  set (content := c0 :: content0).
  destruct title_config as [[ps|]|e]; simpl; try (right; right; reflexivity).
  destruct (try_patterns regex re_compile re_match ps content) as [[[t r]|]|e] eqn:E;
    simpl.
  - left. destruct (try_patterns_shape ps content t r E) as (g & n & -> & ->).
    exists g, n. reflexivity.
  - right; left. reflexivity.
  - right; right. reflexivity.
Qed.

(** X3. Whatever the pattern file holds and whatever the engine
    answers, the extracted title is a single line and does not start
    with whitespace. *)
Theorem extract_title_single_line (content : option str) :
  lacks LF (fst (extract' content)) /\
  match fst (extract' content) with c :: _ => isspace c = false | [] => True end.
Proof.
  destruct content as [[|c0 content0]|]; try (split; [constructor|exact I]).
  destruct (extract_cases c0 content0) as [(g & n & E)|[E|E]]; rewrite E; simpl fst.
  - split; [apply clean_title_lacks_break|apply clean_title_trimmed].
  - apply default_title_single_line.
  - split; [constructor|exact I].
Qed.

(** X4. The remainder is always what is left of the content after a
    prefix: extraction never changes or invents body text. *)
Theorem extract_remainder_is_suffix (content : option str) :
  suffix_of (snd (extract' content))
            (match content with Some c => c | None => [] end).
Proof.
  destruct content as [[|c0 content0]|]; try (exists []; reflexivity).
  destruct (extract_cases c0 content0) as [(g & n & E)|[E|E]]; rewrite E; simpl snd;
    try (exists []; reflexivity).
  destruct (lstrip_suffix (slice_from n (c0 :: content0))) as (ws & _ & Heq).
  exists (firstn n (c0 :: content0) ++ ws).
  rewrite <- app_assoc. unfold slice_from in *. rewrite <- Heq.
  symmetry. apply firstn_skipn.
Qed.

End ExtractionInvariants.

(** ** Splitting at one character *)

Lemma startswith_char (c x : char) (t : str) :
  startswith [c] (x :: t) = (c =? x)%N.
Proof. simpl. apply andb_true_r. Qed.

Lemma split_go_nonempty (sep : str) (k : nat) (cur s : str) :
  split_go sep k cur s <> [].
Proof.
  revert k cur. induction s as [|x t IH]; intros k cur; simpl; [discriminate|].
  destruct k; [|apply IH].
  destruct (startswith sep (x :: t)); [discriminate|apply IH].
Qed.

Lemma split_char_whole (c : char) (l cur : str) :
  lacks c l -> split_go [c] O cur l = [rev cur ++ l].
Proof.
  revert cur. induction l as [|x l IH]; intros cur H.
  - simpl. rewrite app_nil_r. reflexivity.
  - inversion H as [|? ? Hx Hl]; subst.
    change (split_go [c] O cur (x :: l))
      with (if startswith [c] (x :: l)
            then rev cur :: split_go [c] (pred (List.length [c])) [] l
            else split_go [c] O (x :: cur) l).
    rewrite startswith_char.
    destruct (c =? x)%N eqn:E; [apply N.eqb_eq in E; congruence|].
    rewrite (IH (x :: cur) Hl). simpl. rewrite <- app_assoc. reflexivity.
Qed.

Lemma split_char_app (c : char) (l cur s : str) :
  lacks c l ->
  split_go [c] O cur (l ++ c :: s) = (rev cur ++ l) :: split_go [c] O [] s.
Proof.
  revert cur. induction l as [|x l IH]; intros cur H.
  - change (split_go [c] O cur ([] ++ c :: s))
      with (if startswith [c] (c :: s)
            then rev cur :: split_go [c] (pred (List.length [c])) [] s
            else split_go [c] O (c :: cur) s).
    rewrite startswith_char, N.eqb_refl, app_nil_r. reflexivity.
  - inversion H as [|? ? Hx Hl]; subst.
    change (split_go [c] O cur ((x :: l) ++ c :: s))
      with (if startswith [c] (x :: l ++ c :: s)
            then rev cur :: split_go [c] (pred (List.length [c])) [] (l ++ c :: s)
            else split_go [c] O (x :: cur) (l ++ c :: s)).
    rewrite startswith_char.
    destruct (c =? x)%N eqn:E; [apply N.eqb_eq in E; congruence|].
    rewrite (IH (x :: cur) Hl). simpl. rewrite <- app_assoc. reflexivity.
Qed.

Lemma split_char_pieces (c : char) (s cur : str) :
  lacks c cur -> Forall (lacks c) (split_go [c] O cur s).
Proof.
  revert cur. induction s as [|x t IH]; intros cur Hcur.
  - simpl. constructor; [|constructor]. apply Forall_rev. exact Hcur.
  - change (split_go [c] O cur (x :: t))
      with (if startswith [c] (x :: t)
            then rev cur :: split_go [c] (pred (List.length [c])) [] t
            else split_go [c] O (x :: cur) t).
    rewrite startswith_char. destruct (c =? x)%N eqn:E.
    + constructor; [apply Forall_rev; exact Hcur|]. apply IH. constructor.
    + apply IH. constructor; [|exact Hcur]. apply N.eqb_neq in E. congruence.
Qed.

Lemma join_cons (sep p q : str) (rest : list str) :
  join sep (p :: q :: rest) = p ++ sep ++ join sep (q :: rest).
Proof. reflexivity. Qed.

(** splitting the joined lines gives the lines back *)
Lemma split_join_char (c : char) (ls : list str) :
  ls <> [] -> Forall (lacks c) ls -> split [c] (join [c] ls) = ls.
Proof.
  unfold split. induction ls as [|p [|q rest] IH]; intros Hne H.
  - contradiction.
  - simpl. inversion H; subst. apply (split_char_whole c p []). assumption.
  - inversion H as [|? ? Hp Hrest]; subst. rewrite join_cons.
    change ([c] ++ join [c] (q :: rest)) with (c :: join [c] (q :: rest)).
    rewrite (split_char_app c p [] _ Hp). simpl rev. simpl app at 1.
    f_equal. apply IH; [discriminate|exact Hrest].
Qed.

(** joining the pieces gives the text back *)
Lemma join_split_char (c : char) (s cur : str) :
  join [c] (split_go [c] O cur s) = rev cur ++ s.
Proof.
  revert cur. induction s as [|x t IH]; intros cur.
  { simpl. rewrite app_nil_r. reflexivity. }
  change (split_go [c] O cur (x :: t))
    with (if startswith [c] (x :: t)
          then rev cur :: split_go [c] (pred (List.length [c])) [] t
          else split_go [c] O (x :: cur) t).
  rewrite startswith_char. destruct (c =? x)%N eqn:E.
  - apply N.eqb_eq in E. subst x.
    pose proof (split_go_nonempty [c] O [] t) as Hne.
    change (pred (List.length [c])) with O.
    destruct (split_go [c] O [] t) as [|q rest] eqn:Es; [contradiction|].
    rewrite join_cons, <- Es, (IH []). reflexivity.
  - rewrite (IH (x :: cur)). simpl. rewrite <- app_assoc. reflexivity.
Qed.

Lemma last_cons_nonempty (p d : str) (l : list str) :
  l <> [] -> last (p :: l) d = last l d.
Proof. destruct l; [contradiction|reflexivity]. Qed.

Lemma split_char_last (c : char) (a name cur : str) :
  lacks c name -> last (split_go [c] O cur (a ++ c :: name)) [] = name.
Proof.
  intros Hname. revert cur. induction a as [|x a IH]; intros cur.
  - rewrite (split_char_app c [] cur name); [|constructor].
    rewrite (split_char_whole c name [] Hname). reflexivity.
  - change (split_go [c] O cur ((x :: a) ++ c :: name))
      with (if startswith [c] (x :: a ++ c :: name)
            then rev cur :: split_go [c] (pred (List.length [c])) [] (a ++ c :: name)
            else split_go [c] O (x :: cur) (a ++ c :: name)).
    rewrite startswith_char. destruct (c =? x)%N.
    + rewrite last_cons_nonempty; [apply IH|apply split_go_nonempty].
    + apply IH.
Qed.

Lemma split_char_last_lacks (c : char) (s cur : str) :
  lacks c cur -> lacks c (last (split_go [c] O cur s) []).
Proof.
  intros Hcur. pose proof (split_char_pieces c s cur Hcur) as H.
  induction H as [|p l Hp Hl IH]; [constructor|].
  destruct l; [exact Hp|exact IH].
Qed.

(** ** Markdown rendering *)

Lemma process_line_shape (line : str) :
  ends_with (u "  ") (process_line line) /\
  startswith (u "#") (process_line line) = false.
Proof.
  unfold process_line. split; [eexists; reflexivity|].
  change (u "#") with [35%N]. change (u "  ") with [32%N; 32%N].
  destruct (startswith [35%N] line) eqn:E; [reflexivity|].
  destruct line as [|x l]; [reflexivity|].
  change ((x :: l) ++ [32%N; 32%N]) with (x :: (l ++ [32%N; 32%N])).
  rewrite startswith_char. rewrite startswith_char in E. exact E.
Qed.

Lemma process_line_lacks_break (line : str) :
  lacks LF line -> lacks LF (process_line line).
Proof.
  intros H. unfold process_line. apply Forall_app. split.
  - destruct (startswith (u "#") line); [constructor; [discriminate|]|]; exact H.
  - vm_compute. repeat constructor; discriminate.
Qed.

(** X5. In the text handed to the markdown converter every line ends
    with two spaces and no line starts with a heading marker. *)
Theorem preprocess_lines (text : str) :
  Forall (fun line => ends_with (u "  ") line /\ startswith (u "#") line = false)
         (split [LF] (preprocess text)).
Proof.
  unfold preprocess.
  set (lines := split [LF] (Html.sub_breaks _ text)).
  assert (Hne : lines <> []) by apply split_go_nonempty.
  assert (Hlf : Forall (lacks LF) lines)
    by (apply split_char_pieces; constructor).
  rewrite split_join_char.
  - apply Forall_map. apply Forall_forall. intros l _. apply process_line_shape.
  - destruct lines; [contradiction|discriminate].
  - apply Forall_map. apply Forall_impl with (2 := Hlf).
    intros l Hl. apply process_line_lacks_break. exact Hl.
Qed.

Lemma fallback_html_shape (text : str) :
  lacks LF (fallback_html text) /\
  startswith (u "<p>") (fallback_html text) = true /\
  ends_with (u "</p>") (fallback_html text).
Proof.
  unfold fallback_html. split; [|split].
  - apply Forall_app. split; [vm_compute; repeat constructor; discriminate|].
    apply Forall_app. split; [|vm_compute; repeat constructor; discriminate].
    apply (replace_char_lacks LF). vm_compute. repeat constructor; discriminate.
  - apply startswith_refl_app.
  - exists (u "<p>" ++ replace [LF] (u "<br>") (Html.sub_breaks (u "</p><p>") text)).
    rewrite <- app_assoc. reflexivity.
Qed.

(** X6. When the markdown converter raises on a non-empty text, the
    result is one line: it has no line break, starts with the opening
    paragraph tag and ends with the closing one. *)
Theorem render_fallback_is_one_line
    (markdown : str -> result str) (text : str) (e : exn) :
  text <> [] ->
  markdown (preprocess text) = Raise e ->
  lacks LF (convert_markdown_to_html markdown text) /\
  startswith (u "<p>") (convert_markdown_to_html markdown text) = true /\
  ends_with (u "</p>") (convert_markdown_to_html markdown text).
Proof.
  intros Hne H. rewrite (render_fallback markdown text e Hne H).
  apply fallback_html_shape.
Qed.

(** ** Media URLs *)

Section MediaUrlProperties.

Variable HOST : str.
Variable PORT : Z.

Lemma basename_fixed (p : str) : lacks SLASH p -> basename p = p.
Proof.
  intros H. unfold basename, split. change (u "/") with [SLASH].
  rewrite (split_char_whole SLASH p [] H). reflexivity.
Qed.

Lemma media_filename_last (m : Media) :
  media_filename m = last (split [SLASH] (m_url m)) [].
Proof.
  unfold media_filename. change (u "/") with [SLASH].
  apply basename_fixed. apply split_char_last_lacks. constructor.
Qed.

(** X7. The file name a media URL is built from never contains a
    slash, so the URL has exactly the path /media/<rule>/<name>. *)
Theorem media_filename_has_no_slash (m : Media) :
  lacks SLASH (media_filename m).
Proof.
  rewrite media_filename_last. apply split_char_last_lacks. constructor.
Qed.

(** X8. For a stored path whose last component is [name], the public
    URL is the base URL, the segment /media/<rule>/ and [name]; a stored
    path without a slash is its own name. *)
Theorem full_media_url_of_path (rule_id : Z) (m : Media) (dir name : str) :
  lacks SLASH name ->
  (m_url m = dir ++ u "/" ++ name \/ m_url m = name) ->
  full_media_url HOST PORT rule_id m =
  base_url HOST PORT ++ u "/media/" ++ str_of_Z rule_id ++ u "/" ++ name.
Proof.
  intros Hname Hurl. unfold full_media_url. do 4 f_equal.
  rewrite media_filename_last. unfold split. destruct Hurl as [-> | ->].
  - change (u "/" ++ name) with (SLASH :: name).
    apply split_char_last. exact Hname.
  - rewrite (split_char_whole SLASH name [] Hname). reflexivity.
Qed.

End MediaUrlProperties.

(** ** The builder computes the described entry *)

Lemma add_enclosures_nil (fe : FeedEntry) : add_enclosures [] fe = fe.
Proof. destruct fe. unfold add_enclosures. simpl. rewrite app_nil_r. reflexivity. Qed.

Lemma add_enclosures_app (a b : list enclosure) (fe : FeedEntry) :
  add_enclosures b (add_enclosures a fe) = add_enclosures (a ++ b) fe.
Proof. unfold add_enclosures. simpl. rewrite app_assoc. reflexivity. Qed.

Lemma mk_state_eta (st : build_state) :
  st = mk_state (st_fe st) (st_content st) (st_log st) (st_clock st).
Proof. destruct st. reflexivity. Qed.

Section BuildResult.

Variable regex : Type.
Variable re_compile : str -> option regex.
Variable re_match : regex -> str -> option match_obj.
Variable title_config : result (option (list pattern_info)).
Variable markdown : str -> result str.
Variable HOST : str.
Variable PORT : Z.
Variable get_rule_media_path : Z -> result str.
Variable DEFAULT_TIMEZONE : Z.
Variable clock : nat -> Z.
Variable published_ok : datetime -> bool.
Variable fromisoformat : str -> option datetime.

#[local] Abbreviation frag := (embed_fragment HOST PORT get_rule_media_path).
#[local] Abbreviation elog := (embed_log get_rule_media_path).
#[local] Abbreviation encs := (enclosures_of HOST PORT).

Lemma embed_media_exact (rule_id : Z) (m : Media) (st : build_state) :
  m_type m <> None ->
  embed_media HOST PORT get_rule_media_path rule_id m st =
  (mk_state (st_fe st) (st_content st ++ frag rule_id m)
            (st_log st ++ elog rule_id m) (st_clock st), Ok tt).
Proof.
  intros Ht. unfold embed_media, embed_fragment, embed_log.
  destruct (m_type m) as [t|]; [|contradiction].
  unfold getattr. rewrite bind_lift_ok.
  destruct (startswith (u "image/") t).
  - unfold try_except, bindM, lift.
    destruct (get_rule_media_path rule_id) as [p|e]; simpl.
    + unfold mk_state. rewrite app_nil_r. reflexivity.
    + unfold mk_state. rewrite app_nil_r. reflexivity.
  - destruct (startswith (u "video/") t); [|destruct (startswith (u "audio/") t)];
      unfold append_content, mk_state; rewrite app_nil_r; reflexivity.
Qed.

Lemma embed_all_exact (rule_id : Z) (media : list Media) (st : build_state) :
  Forall (fun m => m_type m <> None) media ->
  embed_all HOST PORT get_rule_media_path rule_id media st =
  (mk_state (st_fe st)
            (st_content st ++ List.concat (map (frag rule_id) media))
            (st_log st ++ List.concat (map (elog rule_id) media))
            (st_clock st), Ok tt).
Proof.
  intros H. revert st. induction H as [|m media Hm _ IH]; intros st.
  - simpl. rewrite !app_nil_r. unfold ret. rewrite <- mk_state_eta. reflexivity.
  - simpl embed_all. unfold bindM. rewrite (embed_media_exact _ _ _ Hm), IH.
    simpl. rewrite <- !app_assoc. reflexivity.
Qed.

Lemma attach_media_exact (rule_id : Z) (m : Media) (st : build_state) :
  attach_media HOST PORT rule_id m st =
  (mk_state (add_enclosures (encs rule_id m) (st_fe st))
            (attach_content HOST PORT rule_id m (st_content st))
            (st_log st ++ attach_log m) (st_clock st), Ok tt).
Proof.
  unfold attach_media, attach_content, enclosures_of, attach_log, try_except.
  destruct (m_type m) as [t|].
  - unfold getattr. rewrite bind_lift_ok. unfold bindM at 1. unfold get_content at 1.
    destruct (startswith (u "image/") t &&
              negb (contains (full_media_url HOST PORT rule_id m) (st_content st)));
      destruct (m_size m); simpl;
      unfold mk_state; rewrite ?add_enclosures_nil, ?app_nil_r; reflexivity.
  - simpl. unfold mk_state. rewrite add_enclosures_nil. reflexivity.
Qed.

Lemma attach_all_exact (rule_id : Z) (media : list Media) (st : build_state) :
  attach_all HOST PORT rule_id media st =
  (mk_state (add_enclosures (flat_map (encs rule_id) media) (st_fe st))
            (attach_contents HOST PORT rule_id media (st_content st))
            (st_log st ++ List.concat (map attach_log media))
            (st_clock st), Ok tt).
Proof.
  revert st. induction media as [|m media IH]; intros st.
  - simpl. rewrite add_enclosures_nil, app_nil_r. unfold ret.
    rewrite <- mk_state_eta. reflexivity.
  - simpl attach_all. unfold bindM. rewrite attach_media_exact, IH.
    simpl. rewrite add_enclosures_app, <- app_assoc. reflexivity.
Qed.

#[local] Abbreviation title_and_text' :=
  (title_and_text regex re_compile re_match title_config).
#[local] Abbreviation body_of' :=
  (body_of regex re_compile re_match title_config markdown HOST PORT
     get_rule_media_path).
#[local] Abbreviation published_of' :=
  (published_of DEFAULT_TIMEZONE clock published_ok fromisoformat).
#[local] Abbreviation reads_clock' := (reads_clock published_ok fromisoformat).
#[local] Abbreviation built_entry' :=
  (built_entry regex re_compile re_match title_config markdown HOST PORT
     get_rule_media_path DEFAULT_TIMEZONE clock published_ok fromisoformat).
#[local] Abbreviation built_log' := (built_log get_rule_media_path).
#[local] Abbreviation build' :=
  (build_entry regex re_compile re_match title_config markdown HOST PORT
     get_rule_media_path DEFAULT_TIMEZONE clock published_ok fromisoformat).

Lemma start_entry_exact (entry : Entry) (st : build_state) :
  start_entry regex re_compile re_match title_config markdown entry st =
  (mk_state (set_title (fst (title_and_text' entry))
               (set_id (py_or (e_id entry) (e_message_id entry)) (st_fe st)))
            (convert_markdown_to_html markdown (snd (title_and_text' entry)))
            (st_log st) (st_clock st), Ok tt).
Proof.
  unfold start_entry, title_and_text.
  destruct (extract_telegram_title_and_content _ _ _ _ _) as [t c]. reflexivity.
Qed.

Lemma set_published_time_exact (entry : Entry) (st : build_state) :
  published_ok (published_of' entry (st_clock st)) = true ->
  set_published_time DEFAULT_TIMEZONE clock published_ok fromisoformat (e_published entry) st =
  (mk_state (set_published (published_of' entry (st_clock st)) (st_fe st))
            (st_content st) (st_log st)
            (st_clock st + (if reads_clock' entry then 1 else 0))%nat, Ok tt).
Proof.
  unfold published_of, reads_clock, set_published_time, try_except.
  destruct (fromisoformat (e_published entry)) as [dt|] eqn:E.
  - rewrite bind_lift_ok. unfold publish at 1.
    destruct (published_ok dt) eqn:Eok; intros Hok.
    + simpl. unfold mk_state. rewrite Nat.add_0_r. reflexivity.
    + simpl. unfold bindM, tick, publish. simpl. rewrite Hok.
      unfold mk_state. rewrite Nat.add_1_r. reflexivity.
  - intros Hok.
    rewrite bind_lift_raise. simpl. unfold bindM, tick, publish. simpl.
    rewrite Hok. unfold mk_state. rewrite Nat.add_1_r. reflexivity.
Qed.

Lemma set_author_and_link_exact (entry : Entry) (st : build_state) :
  set_author_and_link entry st =
  (mk_state
     {| fe_id := fe_id (st_fe st); fe_title := fe_title (st_fe st);
        fe_content := fe_content (st_fe st);
        fe_description := fe_description (st_fe st);
        fe_published := fe_published (st_fe st);
        fe_author := match truthy (e_author entry) with
                     | Some a => Some a
                     | None => fe_author (st_fe st)
                     end;
        fe_link := match truthy (e_link entry) with
                   | Some l => Some l
                   | None => fe_link (st_fe st)
                   end;
        fe_enclosures := fe_enclosures (st_fe st) |}
     (st_content st) (st_log st) (st_clock st), Ok tt).
Proof.
  unfold set_author_and_link, bindM.
  destruct st as [[] c l k].
  destruct (truthy (e_author entry)), (truthy (e_link entry)); reflexivity.
Qed.

(** the state the build ends in *)
Lemma build_entry_exact
    (entry : Entry) (c0 : str) (log : list log_record) (k : nat) :
  Forall (fun m => m_type m <> None) (e_media entry) ->
  published_ok (published_of' entry k) = true ->
  build' entry (mk_state empty_entry c0 log k) =
  (mk_state (built_entry' entry k) (body_of' entry) (log ++ built_log' entry)
            (k + (if reads_clock' entry then 1 else 0))%nat, Ok tt).
Proof.
  intros Hmedia Hok. unfold build_entry.
  unfold bindM at 1. rewrite start_entry_exact.
  unfold bindM at 1. rewrite (embed_all_exact _ _ _ Hmedia).
  unfold bindM at 1. unfold fix_content at 1, bindM at 1, get_content, set_content.
  cbn [st_fe st_content st_log st_clock mk_state].
  unfold bindM at 1. rewrite attach_all_exact.
  cbn [st_fe st_content st_log st_clock mk_state].
  unfold bindM at 1. unfold store_content at 1, bindM, get_content, modify_fe.
  cbn [st_fe st_content st_log st_clock mk_state].
  match goal with
  | |- context [set_published_time _ _ _ _ _ ?st] =>
      rewrite (set_published_time_exact entry st Hok)
  end.
  rewrite set_author_and_link_exact.
  cbn [st_fe st_content st_log st_clock mk_state].
  unfold built_entry, built_log, body_of, embedded_body, mk_state.
  rewrite <- app_assoc.
  destruct (truthy (e_author entry)), (truthy (e_link entry)); reflexivity.
Qed.

(** X9. For an entry whose media all have a type and whose published
    time the feed entry takes, the build returns, and it leaves in the
    feed exactly the described entry: id, title, body as content and as
    description, published time, author and link when they are
    non-empty, and the enclosures; the log grows by the faults of the
    two media passes and the clock is read at most once. *)
Theorem build_entry_result
    (entry : Entry) (c0 : str) (log : list log_record) (k : nat) :
  Forall (fun m => m_type m <> None) (e_media entry) ->
  published_ok (published_of' entry k) = true ->
  exists st',
    build' entry (mk_state empty_entry c0 log k) = (st', Ok tt) /\
    st_fe st' = built_entry' entry k /\
    fe_content (st_fe st') = fe_description (st_fe st') /\
    st_content st' = body_of' entry /\
    st_log st' = log ++ built_log' entry /\
    (st_clock st' = k \/ st_clock st' = S k).
Proof.
  intros Hmedia Hok. eexists.
  split; [apply (build_entry_exact entry c0 log k Hmedia Hok)|].
  cbn [st_fe st_content st_log st_clock mk_state].
  repeat split. destruct (reads_clock' entry); [right|left]; lia.
Qed.

#[local] Abbreviation built_entries' :=
  (built_entries regex re_compile re_match title_config markdown HOST PORT
     get_rule_media_path DEFAULT_TIMEZONE clock published_ok fromisoformat).
#[local] Abbreviation add_one' :=
  (add_one regex re_compile re_match title_config markdown HOST PORT
     get_rule_media_path DEFAULT_TIMEZONE clock published_ok fromisoformat).
#[local] Abbreviation buildable' := (buildable DEFAULT_TIMEZONE clock published_ok fromisoformat).
#[local] Abbreviation generate' :=
  (generate_feed_from_entries regex re_compile re_match title_config markdown
     HOST PORT get_rule_media_path DEFAULT_TIMEZONE clock published_ok fromisoformat).

Lemma add_one_exact (fg : Feed) (entry : Entry) :
  buildable' entry ->
  add_one' fg entry =
  add_log fg (built_entry' entry (fg_clock fg) :: fg_entries fg)
             (fg_log fg ++ built_log' entry)
             (fg_clock fg + (if reads_clock' entry then 1 else 0))%nat.
Proof.
  intros [Hmedia Hok]. unfold add_one.
  change {| st_fe := empty_entry; st_content := []; st_log := fg_log fg;
            st_clock := fg_clock fg |}
    with (mk_state empty_entry [] (fg_log fg) (fg_clock fg)).
  rewrite (build_entry_exact entry [] (fg_log fg) (fg_clock fg) Hmedia (Hok _)).
  reflexivity.
Qed.

Lemma fold_add_one_exact (entries : list Entry) (fg : Feed) :
  Forall buildable' entries ->
  fg_entries (fold_left add_one' entries fg) =
    rev (built_entries' entries (fg_clock fg)) ++ fg_entries fg /\
  fg_log (fold_left add_one' entries fg) =
    fg_log fg ++ List.concat (map built_log' entries).
Proof.
  intros H. revert fg. induction H as [|e entries He _ IH]; intros fg.
  - simpl. rewrite !app_nil_r. split; reflexivity.
  - simpl fold_left. rewrite (add_one_exact fg e He).
    destruct (IH (add_log fg (built_entry' e (fg_clock fg) :: fg_entries fg)
                    (fg_log fg ++ built_log' e)
                    (fg_clock fg + (if reads_clock' e then 1 else 0))%nat))
      as [E1 E2].
    rewrite E1, E2. simpl. rewrite <- !app_assoc. split; reflexivity.
Qed.

(** X10. When every entry is buildable, the feed holds the described
    entries in the reverse of the input order ([fg.add_entry()] puts
    each new entry before the earlier ones), each a function of its own
    entry and of the number of clock readings before it, and the log is
    the concatenation of the entries' own logs in the input order: no
    entry influences another one's content. *)
Theorem feed_of_buildable_entries (rule_id : Z) (entries : list Entry) :
  Forall buildable' entries ->
  fg_entries (generate' rule_id entries) = rev (built_entries' entries 0) /\
  fg_log (generate' rule_id entries) = List.concat (map built_log' entries).
Proof.
  intros H. unfold generate_feed_from_entries.
  destruct entries as [|e0 rest]; [split; reflexivity|].
  match goal with
  | |- context [fold_left _ _ ?fg] => destruct (fold_add_one_exact (e0 :: rest) fg H) as [E1 E2]
  end.
  rewrite E1, E2. simpl fg_entries. rewrite app_nil_r. split; reflexivity.
Qed.

(** X11. An entry without text and without media gets the placeholder
    sentence as content and as description, and no enclosure. *)
Theorem empty_entry_gets_placeholder
    (entry : Entry) (c0 : str) (log : list log_record) (k : nat) :
  truthy (e_content entry) = None ->
  e_media entry = [] ->
  published_ok (published_of' entry k) = true ->
  exists st',
    build' entry (mk_state empty_entry c0 log k) = (st', Ok tt) /\
    fe_content (st_fe st') = Some Fragment.no_text /\
    fe_description (st_fe st') = Some Fragment.no_text /\
    fe_enclosures (st_fe st') = [].
Proof.
  intros Hc Hm Hok.
  assert (Hmedia : Forall (fun m => m_type m <> None) (e_media entry))
    by (rewrite Hm; constructor).
  eexists. split; [apply (build_entry_exact entry c0 log k Hmedia Hok)|].
  assert (Hbody : body_of' entry = Fragment.no_text).
  { unfold body_of, embedded_body, title_and_text. rewrite Hc, Hm.
    vm_compute. reflexivity. }
  cbn [st_fe mk_state built_entry fe_content fe_description fe_enclosures].
  rewrite Hbody, Hm. repeat split.
Qed.

Lemma enclosures_of_complete (rule_id : Z) (media : list Media) :
  Forall (fun m => m_type m <> None /\ m_size m <> None) media ->
  Forall2 (fun m v =>
             enc_url v = full_media_url HOST PORT rule_id m /\
             (exists n, m_size m = Some n /\ enc_length v = str_of_Z n) /\
             m_type m = Some (enc_type v))
          media (flat_map (encs rule_id) media).
Proof.
  induction 1 as [|m media [Ht Hs] _ IH]; [constructor|].
  simpl flat_map. unfold enclosures_of at 1, enclosure_of.
  destruct (m_type m) as [t|] eqn:Et; [|contradiction].
  destruct (m_size m) as [n|] eqn:Es; [|contradiction].
  simpl. constructor; [|exact IH]. simpl.
  split; [reflexivity|]. split; [exists n; split; [exact Es|reflexivity]|exact Et].
Qed.

(** X12. For an entry whose media all have a type and a size, the built
    feed entry has one enclosure for each media item, in the order of
    the media, with the derived URL, the size in decimal as length and
    the declared type. *)
Theorem enclosures_of_built_entry
    (entry : Entry) (c0 : str) (log : list log_record) (k : nat) :
  Forall (fun m => m_type m <> None /\ m_size m <> None) (e_media entry) ->
  published_ok (published_of' entry k) = true ->
  exists st',
    build' entry (mk_state empty_entry c0 log k) = (st', Ok tt) /\
    Forall2 (fun m v =>
               enc_url v = full_media_url HOST PORT (e_rule_id entry) m /\
               (exists n, m_size m = Some n /\ enc_length v = str_of_Z n) /\
               m_type m = Some (enc_type v))
            (e_media entry) (fe_enclosures (st_fe st')).
Proof.
  intros Hall Hok.
  assert (Hmedia : Forall (fun m => m_type m <> None) (e_media entry)).
  { apply Forall_impl with (2 := Hall). intros m [H _]. exact H. }
  eexists. split; [apply (build_entry_exact entry c0 log k Hmedia Hok)|].
  cbn [st_fe mk_state built_entry fe_enclosures].
  apply enclosures_of_complete. exact Hall.
Qed.

(** X13. A published string that parses to a value the feed entry
    rejects is treated like an unparseable one: the entry gets the
    current time in the configured time zone, and the clock is read
    once. *)
Theorem rejected_timestamp_falls_back
    (entry : Entry) (c0 : str) (log : list log_record) (k : nat) (dt : datetime) :
  Forall (fun m => m_type m <> None) (e_media entry) ->
  fromisoformat (e_published entry) = Some dt ->
  published_ok dt = false ->
  published_ok (now_in clock DEFAULT_TIMEZONE k) = true ->
  exists st',
    build' entry (mk_state empty_entry c0 log k) = (st', Ok tt) /\
    fe_published (st_fe st') = Some (now_in clock DEFAULT_TIMEZONE k) /\
    st_clock st' = S k.
Proof.
  intros Hmedia Hp Hrej Hnow.
  assert (Hpub : published_of' entry k = now_in clock DEFAULT_TIMEZONE k).
  { unfold published_of. rewrite Hp, Hrej. reflexivity. }
  assert (Hok : published_ok (published_of' entry k) = true)
    by (rewrite Hpub; exact Hnow).
  eexists. split; [apply (build_entry_exact entry c0 log k Hmedia Hok)|].
  cbn [st_fe st_clock mk_state built_entry fe_published].
  rewrite Hpub. split; [reflexivity|].
  unfold reads_clock. rewrite Hp, Hrej. simpl. lia.
Qed.

(** *** The header of the feed *)

Lemma fold_add_one_header (entries : list Entry) (fg : Feed) :
  fg_title (fold_left add_one' entries fg) = fg_title fg /\
  fg_description (fold_left add_one' entries fg) = fg_description fg /\
  fg_link (fold_left add_one' entries fg) = fg_link fg /\
  fg_language (fold_left add_one' entries fg) = fg_language fg.
Proof.
  revert fg. induction entries as [|e entries IH]; intros fg;
    [repeat split|].
  simpl fold_left. destruct (IH (add_one' fg e)) as (E1 & E2 & E3 & E4).
  rewrite E1, E2, E3, E4. unfold add_one.
  destruct (build_entry _ _ _ _ _ _ _ _ _ _ _ _ _ _) as [st [[]|x]]; repeat split.
Qed.

(** X14. The header of the feed does not depend on how the entries
    build: the link is the base URL followed by /rss/<rule>, the
    language is zh-CN, and the title names the channel of the first
    entry's link, or the rule when there is no channel name or no
    entry. *)
Theorem feed_header (rule_id : Z) (entries : list Entry) :
  let fg := generate' rule_id entries in
  fg_link fg = base_url HOST PORT ++ u "/rss/" ++ str_of_Z rule_id /\
  fg_language fg = u "zh-CN" /\
  fg_title fg =
    match entries with
    | [] => u "TG Forwarder RSS - Rule " ++ str_of_Z rule_id
    | first_entry :: _ =>
      match _extract_chat_name (e_link first_entry) with
      | [] => u "TG Forwarder - Rule " ++ str_of_Z rule_id
      | name => u "TG Forwarder - " ++ name
      end
    end.
Proof.
  unfold generate_feed_from_entries.
  match goal with
  | |- context [fold_left _ _ ?fg] =>
      destruct (fold_add_one_header entries fg) as (E1 & _ & E3 & E4)
  end.
  cbv zeta. rewrite E1, E3, E4.
  destruct entries as [|e0 rest]; [repeat split|].
  cbn [fg_link fg_language fg_title]. split; [reflexivity|]. split; [reflexivity|].
  destruct (_extract_chat_name (e_link e0)); reflexivity.
Qed.

End BuildResult.

(** ** An entry with one image *)

(** *** A text followed by a fragment *)

Lemma startswith_length (p s : str) :
  startswith p s = true -> (List.length p <= List.length s)%nat.
Proof.
  revert s. induction p as [|x p IH]; intros s H; simpl; [lia|].
  destruct s as [|y s]; [discriminate|]. simpl in H.
  apply andb_true_iff in H. destruct H as [_ H]. apply IH in H. simpl. lia.
Qed.

Lemma startswith_prefix (p q s : str) :
  startswith (p ++ q) s = true -> startswith p s = true.
Proof.
  revert s. induction p as [|x p IH]; intros s H; [reflexivity|].
  destruct s as [|y s]; [discriminate|]. simpl in *.
  apply andb_true_iff in H. destruct H as [H1 H2].
  rewrite H1. simpl. apply IH. exact H2.
Qed.

Lemma startswith_app_inert (p b s : str) :
  inert p b -> s <> [] -> startswith p (s ++ b) = startswith p s.
Proof.
  revert s. induction p as [|x p IH]; intros s Hin Hs; [reflexivity|].
  destruct s as [|y s]; [contradiction|].
  destruct Hin as [Hp Hin]. simpl. f_equal.
  destruct s as [|z s].
  - destruct Hp as [Hp|Hp]; [rewrite Hp; reflexivity|].
    simpl app. rewrite Hp.
    destruct p as [|w p']; [simpl in Hp; discriminate Hp|reflexivity].
  - apply IH; [exact Hin|discriminate].
Qed.

Lemma inert_lacks (c : char) (p b : str) :
  lacks c (tl p) -> inert p (c :: b).
Proof.
  destruct p as [|x p]; [intros _; exact I|]. simpl tl.
  revert x. induction p as [|y p IH]; intros x H.
  - split; [left; reflexivity|exact I].
  - inversion H as [|? ? Hy Hp]; subst. split; [|apply IH; exact Hp].
    right. simpl. apply N.eqb_neq in Hy. rewrite Hy. reflexivity.
Qed.

Lemma span_len_app_stop (f : char -> bool) (s b : str) :
  match b with c :: _ => f c = false | [] => True end ->
  span_len f (s ++ b) = span_len f s.
Proof.
  intros Hb. induction s as [|c s IH]; simpl.
  - destruct b as [|c b]; [reflexivity|]. simpl. rewrite Hb. reflexivity.
  - rewrite IH. reflexivity.
Qed.

Lemma span_len_le (f : char -> bool) (s : str) :
  (span_len f s <= List.length s)%nat.
Proof.
  induction s as [|c s IH]; simpl; [lia|]. destruct (f c); simpl; lia.
Qed.

Lemma skipn_app_le (n : nat) (s b : str) :
  (n <= List.length s)%nat -> skipn n (s ++ b) = skipn n s ++ b.
Proof.
  intros H. rewrite skipn_app.
  replace (n - List.length s)%nat with 0%nat by lia. reflexivity.
Qed.

Lemma spaced_at_inert (open close r b s : str) :
  inert open b -> inert close b -> startswith close b = false ->
  match b with c :: _ => isspace c = false | [] => True end ->
  s <> [] ->
  Html.spaced_at open close r (s ++ b) = Html.spaced_at open close r s.
Proof.
  intros Ho Hc Hcb Hsp Hs. unfold Html.spaced_at.
  rewrite (startswith_app_inert open b s Ho Hs).
  destruct (startswith open s) eqn:E; [|reflexivity].
  apply startswith_length in E.
  rewrite (skipn_app_le _ s b E).
  set (rest := skipn (List.length open) s).
  rewrite (span_len_app_stop isspace rest b Hsp).
  rewrite (skipn_app_le _ rest b (span_len_le isspace rest)).
  assert (Hn : startswith close [] = false).
  { destruct close; [simpl in Hcb; discriminate Hcb|reflexivity]. }
  destruct (skipn (span_len isspace rest) rest) as [|c t] eqn:Et.
  - simpl app. rewrite Hcb, Hn. reflexivity.
  - rewrite (startswith_app_inert close b (c :: t) Hc); [reflexivity|discriminate].
Qed.

Lemma spaced_at_bound (open close r s r' : str) (n : nat) :
  Html.spaced_at open close r s = Some (r', n) -> (n <= List.length s)%nat.
Proof.
  unfold Html.spaced_at. destruct (startswith open s) eqn:E; [|discriminate].
  destruct (startswith close _) eqn:E2; [|discriminate].
  intros H. injection H as _ <-.
  apply startswith_length in E, E2. rewrite !length_skipn in E2.
  pose proof (span_len_le isspace (skipn (List.length open) s)) as Hk.
  rewrite length_skipn in Hk. lia.
Qed.

Lemma startswith_head_differs (x : char) (o : str) (c : char) (t : str) :
  c <> x -> startswith (x :: o) (c :: t) = false.
Proof.
  intros H. simpl. apply N.eqb_neq in H. rewrite N.eqb_sym, H. reflexivity.
Qed.

Lemma spaced_at_head (x : char) (o close r : str) (c : char) (t : str) :
  c <> x -> Html.spaced_at (x :: o) close r (c :: t) = None.
Proof.
  intros H. unfold Html.spaced_at. simpl startswith.
  apply N.eqb_neq in H. rewrite N.eqb_sym, H. reflexivity.
Qed.

Lemma scan_app_inert (m : str -> option (str * nat)) (b : str) :
  (forall s, s <> [] -> m (s ++ b) = m s) ->
  (forall s r n, m s = Some (r, n) -> (n <= List.length s)%nat) ->
  scan m 0 b = b ->
  forall a k, (k <= List.length a)%nat -> scan m k (a ++ b) = scan m k a ++ b.
Proof.
  intros Hin Hb Hid. induction a as [|c a IH]; intros k Hk.
  - simpl in Hk. replace k with 0%nat by lia. exact Hid.
  - simpl in Hk. destruct k as [|k].
    + change (scan m 0 ((c :: a) ++ b))
        with (match m ((c :: a) ++ b) with
              | Some (r, S k) => r ++ scan m k (a ++ b)
              | _ => c :: scan m 0 (a ++ b)
              end).
      rewrite (Hin (c :: a)) by discriminate.
      change (scan m 0 (c :: a))
        with (match m (c :: a) with
              | Some (r, S k) => r ++ scan m k a
              | _ => c :: scan m 0 a
              end).
      destruct (m (c :: a)) as [[r [|n]]|] eqn:E.
      * rewrite IH by lia. reflexivity.
      * apply Hb in E. simpl in E. rewrite IH by lia.
        rewrite app_assoc. reflexivity.
      * rewrite IH by lia. reflexivity.
    + change (scan m (S k) ((c :: a) ++ b)) with (scan m k (a ++ b)).
      change (scan m (S k) (c :: a)) with (scan m k a).
      apply IH. lia.
Qed.

Lemma scan_unmatched (m : str -> option (str * nat)) (s : str) :
  unmatched m s -> scan m 0 s = s.
Proof.
  induction s as [|c s IH]; intros H; [reflexivity|].
  destruct H as [H1 H2]. simpl. rewrite H1. f_equal. apply IH. exact H2.
Qed.

Lemma unmatched_app_lacks (m : str -> option (str * nat)) (x : char) (a b : str) :
  (forall c t, c <> x -> m (c :: t) = None) ->
  lacks x a -> unmatched m b -> unmatched m (a ++ b).
Proof.
  intros Hm Ha Hb. induction Ha as [|c a Hc _ IH]; [exact Hb|].
  split; [apply Hm; exact Hc|exact IH].
Qed.

Lemma replace_app_inert (old new b a : str) :
  inert old b -> replace old new b = b ->
  replace old new (a ++ b) = replace old new a ++ b.
Proof.
  intros Hin Hid. unfold replace. apply scan_app_inert.
  - intros s Hs. cbv beta. rewrite (startswith_app_inert old b s Hin Hs).
    reflexivity.
  - intros s r n. cbv beta. destruct (startswith old s) eqn:E; [|discriminate].
    intros H. injection H as _ <-. apply startswith_length. exact E.
  - exact Hid.
  - lia.
Qed.

(** *** Counting *)

Lemma count_sub_cons (p : str) (c : char) (t : str) :
  count_sub p (c :: t) = ((if startswith p (c :: t) then 1 else 0) + count_sub p t)%nat.
Proof. reflexivity. Qed.

Lemma count_sub_app_inert (p a b : str) :
  p <> [] -> inert p b ->
  count_sub p (a ++ b) = (count_sub p a + count_sub p b)%nat.
Proof.
  intros Hp Hin. induction a as [|c a IH].
  - destruct p as [|x p]; [contradiction|]. reflexivity.
  - change ((c :: a) ++ b) with (c :: (a ++ b)). rewrite !count_sub_cons.
    change (c :: a ++ b) with ((c :: a) ++ b).
    rewrite (startswith_app_inert p b (c :: a) Hin) by discriminate.
    rewrite IH. lia.
Qed.

Lemma count_sub_lacks_app (x : char) (p1 a s : str) :
  lacks x a -> count_sub (x :: p1) (a ++ s) = count_sub (x :: p1) s.
Proof.
  induction 1 as [|c a Hc _ IH]; [reflexivity|].
  change ((c :: a) ++ s) with (c :: (a ++ s)). rewrite count_sub_cons.
  simpl startswith. apply N.eqb_neq in Hc. rewrite N.eqb_sym, Hc.
  simpl. exact IH.
Qed.

Lemma count_sub_once (x : char) (p1 y b : str) :
  lacks x p1 -> lacks x y -> count_sub (x :: p1) b = 0%nat ->
  count_sub (x :: p1) ((x :: p1) ++ y ++ b) = 1%nat.
Proof.
  intros H1 Hy Hb.
  change ((x :: p1) ++ y ++ b) with (x :: (p1 ++ y ++ b)). rewrite count_sub_cons.
  change (x :: p1 ++ y ++ b) with ((x :: p1) ++ y ++ b).
  rewrite startswith_refl_app.
  rewrite (count_sub_lacks_app x p1 p1 _ H1), (count_sub_lacks_app x p1 y _ Hy), Hb.
  reflexivity.
Qed.

Lemma startswith_app_contains (a p q s : str) :
  startswith (a ++ p ++ q) s = true -> contains p s = true.
Proof.
  revert s. induction a as [|x a IH]; intros s H.
  - simpl in H. rewrite contains_unfold.
    rewrite (startswith_prefix p q s H). reflexivity.
  - destruct s as [|y s]; [discriminate|]. simpl in H.
    apply andb_true_iff in H. destruct H as [_ H].
    rewrite contains_unfold, (IH s H). apply orb_true_r.
Qed.

Lemma count_sub_no_contains (a p q s : str) :
  contains p s = false -> count_sub (a ++ p ++ q) s = 0%nat.
Proof.
  induction s as [|c s IH]; intros H.
  - unfold count_sub. destruct (startswith (a ++ p ++ q) []) eqn:E; [|reflexivity].
    apply startswith_app_contains in E. congruence.
  - rewrite count_sub_cons. rewrite contains_unfold in H.
    apply orb_false_iff in H. destruct H as [H1 H2]. rewrite (IH H2).
    destruct (startswith (a ++ p ++ q) (c :: s)) eqn:E; [|reflexivity].
    apply startswith_app_contains in E.
    rewrite contains_unfold, H1, H2 in E. discriminate.
Qed.

Lemma contains_lacks_head (c : char) (p s : str) :
  lacks c s -> contains (c :: p) s = false.
Proof.
  induction 1 as [|x s Hx _ IH]; [reflexivity|].
  rewrite contains_unfold, IH. simpl.
  apply N.eqb_neq in Hx. rewrite N.eqb_sym, Hx. reflexivity.
Qed.

(** *** The image fragments *)

Section TagText.

(** a fragment that opens a paragraph with an image element and closes
    it, without another tag between them *)
Variable inner : str.
Hypothesis inner_lacks : lacks LT inner.

#[local] Abbreviation tag := (u "<p><i" ++ inner ++ u "</p>").

Ltac inert_closed :=
  vm_compute; repeat split; first [right; reflexivity | left; reflexivity].

Ltac unmatched_tag head :=
  change tag with (LT :: 112%N :: 62%N :: LT :: 105%N :: (inner ++ u "</p>"));
  repeat (split; [reflexivity|]);
  apply (unmatched_app_lacks _ LT);
  [ head | exact inner_lacks | vm_compute; repeat split ].

Lemma sub_double_br_tag (a : str) :
  Html.sub_double_br (a ++ tag) = Html.sub_double_br a ++ tag.
Proof.
  unfold Html.sub_double_br. apply scan_app_inert; [| | |lia].
  - intros s Hs. apply spaced_at_inert; try exact Hs; try reflexivity; inert_closed.
  - intros s r n. apply spaced_at_bound.
  - apply scan_unmatched.
    unmatched_tag ltac:(intros c t Hc;
                        exact (spaced_at_head LT (u "br>") _ _ c t Hc)).
Qed.

Lemma sub_empty_p_tag (a : str) :
  Html.sub_empty_p (a ++ tag) = Html.sub_empty_p a ++ tag.
Proof.
  unfold Html.sub_empty_p. apply scan_app_inert; [| | |lia].
  - intros s Hs. apply spaced_at_inert; try exact Hs; try reflexivity; inert_closed.
  - intros s r n. apply spaced_at_bound.
  - apply scan_unmatched.
    unmatched_tag ltac:(intros c t Hc;
                        exact (spaced_at_head LT (u "p>") _ _ c t Hc)).
Qed.

Lemma sub_br_p_tag (a : str) :
  Html.sub_br_p (a ++ tag) = Html.sub_br_p a ++ tag.
Proof.
  unfold Html.sub_br_p. apply replace_app_inert; [inert_closed|].
  unfold replace. apply scan_unmatched.
  unmatched_tag ltac:(intros c t Hc; cbv beta;
                      replace (startswith (u "<p><br></p>") (c :: t)) with false
                        by (symmetry;
                            exact (startswith_head_differs LT (u "p><br></p>") c t Hc));
                      reflexivity).
Qed.

Lemma normalize_app_tag (a : str) : normalize (a ++ tag) = normalize a ++ tag.
Proof.
  unfold normalize. rewrite sub_double_br_tag, sub_empty_p_tag, sub_br_p_tag.
  reflexivity.
Qed.

End TagText.

Lemma closed_lacks (c : char) (s : str) :
  forallb (fun x => negb (x =? c)%N) s = true -> lacks c s.
Proof.
  induction s as [|x s IH]; intros H; [constructor|]. simpl in H.
  apply andb_true_iff in H. destruct H as [H1 H2].
  constructor; [|apply IH; exact H2].
  apply N.eqb_neq. apply negb_true_iff. exact H1.
Qed.

Lemma lacks_app (c : char) (a b : str) : lacks c a -> lacks c b -> lacks c (a ++ b).
Proof. intros Ha Hb. apply Forall_app. split; assumption. Qed.

Lemma img_tag_shape (url fn : str) :
  Fragment.img_tag url fn =
  u "<p><i"
  ++ (uq "mg src=`" ++ url ++ uq "` alt=`" ++ fn
      ++ uq "` style=`max-width:100%;height:auto;display:block;` />")
  ++ u "</p>".
Proof. unfold Fragment.img_tag. rewrite <- !app_assoc. reflexivity. Qed.

Lemma missing_img_tag_shape (url fn : str) :
  Fragment.missing_img_tag url fn =
  u "<p><i"
  ++ (uq "mg src=`" ++ url ++ uq "` alt=`" ++ fn ++ uq "` style=`max-width:100%;` />")
  ++ u "</p>".
Proof. unfold Fragment.missing_img_tag. rewrite <- !app_assoc. reflexivity. Qed.

Lemma tag_inner_lacks (url fn style : str) :
  lacks LT url -> lacks LT fn -> lacks LT style ->
  lacks LT (uq "mg src=`" ++ url ++ uq "` alt=`" ++ fn ++ style).
Proof.
  intros Hu Hf Hs.
  apply lacks_app; [apply closed_lacks; reflexivity|].
  apply lacks_app; [exact Hu|].
  apply lacks_app; [apply closed_lacks; reflexivity|].
  apply lacks_app; assumption.
Qed.

(** an image fragment holds one image element for its URL *)
Lemma embeds_tag (url fn style : str) :
  lacks LT url -> lacks LT fn -> lacks LT style ->
  embeds url (u "<p><i" ++ (uq "mg src=`" ++ url ++ uq "` alt=`" ++ fn ++ style)
              ++ u "</p>") = 1%nat.
Proof.
  intros Hu Hf Hs. unfold embeds, img_open.
  set (p1 := uq "img src=`" ++ url ++ uq "`").
  set (y := uq " alt=`" ++ fn ++ style).
  assert (Hp1 : lacks LT p1).
  { apply lacks_app; [apply closed_lacks; reflexivity|].
    apply lacks_app; [exact Hu|apply closed_lacks; reflexivity]. }
  assert (Hy : lacks LT y).
  { apply lacks_app; [apply closed_lacks; reflexivity|].
    apply lacks_app; assumption. }
  replace (u "<p><i" ++ (uq "mg src=`" ++ url ++ uq "` alt=`" ++ fn ++ style)
           ++ u "</p>")
    with (LT :: u "p>" ++ (LT :: p1) ++ y ++ u "</p>").
  2:{ unfold p1, y. rewrite <- app_comm_cons, <- !app_assoc. reflexivity. }
  change (uq "<img src=`" ++ url ++ uq "`") with (LT :: p1).
  rewrite count_sub_cons.
  replace (startswith (LT :: p1) (LT :: u "p>" ++ (LT :: p1) ++ y ++ u "</p>"))
    with false by reflexivity.
  rewrite (count_sub_lacks_app LT p1 (u "p>"));
    [|apply closed_lacks; reflexivity].
  apply (count_sub_once LT p1 y (u "</p>") Hp1 Hy). reflexivity.
Qed.

Lemma ensure_nonempty_kept (media : list Media) (c : str) :
  c <> [] -> ensure_nonempty media c = (c, false).
Proof. destruct c; [contradiction|reflexivity]. Qed.

Lemma ensure_markup_kept (c : str) :
  startswith (u "<") c = true -> ensure_markup c = c.
Proof. intros H. unfold ensure_markup. rewrite H. reflexivity. Qed.

Section OneImage.

Variable regex : Type.
Variable re_compile : str -> option regex.
Variable re_match : regex -> str -> option match_obj.
Variable title_config : result (option (list pattern_info)).
Variable markdown : str -> result str.
Variable HOST : str.
Variable PORT : Z.
Variable get_rule_media_path : Z -> result str.
Variable DEFAULT_TIMEZONE : Z.
Variable clock : nat -> Z.
Variable published_ok : datetime -> bool.
Variable fromisoformat : str -> option datetime.

#[local] Abbreviation rendered :=
  (fun entry =>
     convert_markdown_to_html markdown
       (snd (title_and_text regex re_compile re_match title_config entry))).
#[local] Abbreviation body_of' :=
  (body_of regex re_compile re_match title_config markdown HOST PORT
     get_rule_media_path).
#[local] Abbreviation build' :=
  (build_entry regex re_compile re_match title_config markdown HOST PORT
     get_rule_media_path DEFAULT_TIMEZONE clock published_ok fromisoformat).

Lemma url_head (rule_id : Z) (m : Media) :
  exists rest, full_media_url HOST PORT rule_id m = 104%N :: rest.
Proof. eexists. reflexivity. Qed.

(** the body when the first pass embeds the image *)
Lemma body_of_embedded (entry : Entry) (m : Media) (t p : str) :
  e_media entry = [m] -> m_type m = Some t -> startswith (u "image/") t = true ->
  (rendered entry = [] \/ startswith (u "<") (rendered entry) = true) ->
  lacks LT (full_media_url HOST PORT (e_rule_id entry) m) ->
  lacks LT (m_filename m) ->
  get_rule_media_path (e_rule_id entry) = Ok p ->
  body_of' entry =
  normalize (rendered entry)
  ++ Fragment.img_tag (full_media_url HOST PORT (e_rule_id entry) m) (m_filename m).
Proof.
  intros Hmedia Ht Himg Hmark Hurl Hfn Hp.
  unfold body_of, embedded_body. rewrite Hmedia.
  set (url := full_media_url HOST PORT (e_rule_id entry) m).
  set (html := rendered entry) in *.
  assert (Hfrag : List.concat (map (embed_fragment HOST PORT get_rule_media_path
                                      (e_rule_id entry)) [m])
                  = Fragment.img_tag url (m_filename m)).
  { cbn [map List.concat]. rewrite app_nil_r.
    unfold embed_fragment. rewrite Ht, Himg, Hp. reflexivity. }
  rewrite Hfrag.
  assert (Hshape := img_tag_shape url (m_filename m)).
  assert (Hstart : startswith (u "<") (html ++ Fragment.img_tag url (m_filename m)) = true).
  { destruct Hmark as [E|E]; [rewrite E, Hshape; reflexivity|].
    apply startswith_app_l. exact E. }
  rewrite ensure_nonempty_kept.
  2:{ intros E. apply app_eq_nil in E. destruct E as [_ E].
      rewrite Hshape in E. discriminate E. }
  simpl fst. rewrite (ensure_markup_kept _ Hstart).
  rewrite Hshape.
  rewrite normalize_app_tag.
  2:{ apply tag_inner_lacks; [exact Hurl|exact Hfn|apply closed_lacks; reflexivity]. }
  rewrite <- Hshape.
  apply attach_contents_fixed. constructor; [|constructor].
  intros t' _ _. apply contains_app_r. apply img_tag_has_url.
Qed.

(** the body when the first pass faults on the image *)
Lemma body_of_missing (entry : Entry) (m : Media) (t : str) (e : exn) :
  e_media entry = [m] -> m_type m = Some t -> startswith (u "image/") t = true ->
  (rendered entry = [] \/ startswith (u "<") (rendered entry) = true) ->
  get_rule_media_path (e_rule_id entry) = Raise e ->
  contains (full_media_url HOST PORT (e_rule_id entry) m)
           (normalize (rendered entry)) = false ->
  exists text,
    contains (full_media_url HOST PORT (e_rule_id entry) m) text = false /\
    body_of' entry =
    text ++ Fragment.missing_img_tag (full_media_url HOST PORT (e_rule_id entry) m)
                                     (m_filename m).
Proof.
  intros Hmedia Ht Himg Hmark He Hno.
  unfold body_of, embedded_body. rewrite Hmedia.
  set (url := full_media_url HOST PORT (e_rule_id entry) m) in *.
  set (html := rendered entry) in *.
  assert (Hfrag : List.concat (map (embed_fragment HOST PORT get_rule_media_path
                                      (e_rule_id entry)) [m]) = []).
  { cbn [map List.concat]. rewrite app_nil_r.
    unfold embed_fragment. rewrite Ht, Himg, He. reflexivity. }
  rewrite Hfrag, app_nil_r.
  destruct Hmark as [E|E].
  - rewrite E.
    set (text := Fragment.no_text ++ Fragment.media_count [m]).
    change (fst (ensure_nonempty [m] [])) with text.
    assert (Htext : normalize (ensure_markup text) = text) by (vm_compute; reflexivity).
    rewrite Htext.
    assert (Hc : contains url text = false).
    { destruct (url_head (e_rule_id entry) m) as [rest Hrest].
      unfold url. rewrite Hrest. apply contains_lacks_head.
      apply closed_lacks. vm_compute. reflexivity. }
    exists text. split; [exact Hc|].
    unfold attach_contents. simpl fold_left. unfold attach_content.
    rewrite Ht, Himg. fold url. rewrite Hc. reflexivity.
  - rewrite ensure_nonempty_kept.
    2:{ intros E0. rewrite E0 in E. discriminate E. }
    simpl fst. rewrite (ensure_markup_kept _ E).
    exists (normalize html). split; [exact Hno|].
    unfold attach_contents. simpl fold_left. unfold attach_content.
    rewrite Ht, Himg. fold url. rewrite Hno. reflexivity.
Qed.


End OneImage.

(** ** The two passes over the media, for every media list *)

Section MediaPassProperties.

Variable HOST : str.
Variable PORT : Z.
Variable get_rule_media_path : Z -> result str.

#[local] Abbreviation url_of := (full_media_url HOST PORT).

(** X15. For every media list the second pass only appends to the
    content; after it the URL of every image is in the content, and
    running it again leaves the content as it is. *)
Theorem second_pass_covers_images
    (rule_id : Z) (media : list Media) (st : build_state) :
  let st1 := fst (attach_all HOST PORT rule_id media st) in
  (exists x, st_content st1 = st_content st ++ x) /\
  Forall (covered HOST PORT rule_id (st_content st1)) media /\
  st_content (fst (attach_all HOST PORT rule_id media st1)) = st_content st1.
Proof.
  intros st1.
  assert (E1 : st_content st1 = attach_contents HOST PORT rule_id media (st_content st))
    by apply attach_all_content.
  split; [|split].
  - rewrite E1. apply attach_contents_extends.
  - rewrite E1. apply attach_contents_covers.
  - rewrite attach_all_content, E1. apply attach_contents_idempotent.
Qed.

Lemma embed_fragment_has_url (rule_id : Z) (m : Media) :
  embeds_cleanly get_rule_media_path rule_id m ->
  contains (url_of rule_id m)
           (embed_fragment HOST PORT get_rule_media_path rule_id m) = true.
Proof.
  intros (t & Ht & Himg). unfold embed_fragment. rewrite Ht.
  destruct (startswith (u "image/") t).
  - destruct (Himg eq_refl) as [p Hp]. rewrite Hp. apply img_tag_has_url.
  - destruct (startswith (u "video/") t); [|destruct (startswith (u "audio/") t)].
    + unfold Fragment.video_player. apply contains_middle.
    + unfold Fragment.audio_player. apply contains_middle.
    + unfold Fragment.file_tag. apply contains_middle.
Qed.

Lemma embedded_fragments_have_urls (rule_id : Z) (media : list Media) :
  Forall (embeds_cleanly get_rule_media_path rule_id) media ->
  forall c,
    Forall (fun m => contains (url_of rule_id m)
                       (c ++ List.concat
                               (map (embed_fragment HOST PORT get_rule_media_path rule_id)
                                    media)) = true)
           media.
Proof.
  induction 1 as [|m media Hm _ IH]; intros c; [constructor|].
  simpl. constructor.
  - apply contains_app_r. apply contains_app_l.
    apply embed_fragment_has_url. exact Hm.
  - specialize (IH (c ++ embed_fragment HOST PORT get_rule_media_path rule_id m)).
    rewrite <- app_assoc in IH. exact IH.
Qed.

(** X16. When every media item appends its fragment without a fault,
    the first pass returns and the content then holds the derived URL of
    every media item, whatever its kind. *)
Theorem first_pass_embeds_every_url
    (rule_id : Z) (media : list Media) (st : build_state) :
  Forall (embeds_cleanly get_rule_media_path rule_id) media ->
  exists st',
    embed_all HOST PORT get_rule_media_path rule_id media st = (st', Ok tt) /\
    Forall (fun m => contains (url_of rule_id m) (st_content st') = true) media.
Proof.
  intros Hall.
  assert (Hmedia : Forall (fun m => m_type m <> None) media).
  { apply Forall_impl with (2 := Hall). intros m (t & Ht & _). congruence. }
  eexists. split; [apply (embed_all_exact HOST PORT get_rule_media_path _ _ _ Hmedia)|].
  cbn [st_content mk_state]. apply embedded_fragments_have_urls. exact Hall.
Qed.

End MediaPassProperties.

(** ** The re-wrapping and the clean-up *)

Lemma startswith_shorter (a b s : str) :
  startswith (a ++ b) s = true -> startswith a s = true.
Proof.
  revert s. induction a as [|x a IH]; intros s H; [reflexivity|].
  destruct s as [|y s]; simpl in *; [discriminate|].
  apply andb_true_iff in H. destruct H as [H1 H2].
  rewrite H1. simpl. apply IH. exact H2.
Qed.

Lemma fold_left_append_prefix {A : Type} (keep : A -> bool) (f : A -> str)
    (l : list A) (init : str) :
  exists y,
    fold_left (fun acc x => if keep x then acc ++ f x else acc) l init = init ++ y.
Proof.
  revert init. induction l as [|x l IH]; intros init.
  - exists []. rewrite app_nil_r. reflexivity.
  - simpl. destruct (keep x).
    + destruct (IH (init ++ f x)) as [y Hy]. exists (f x ++ y).
      rewrite Hy, app_assoc. reflexivity.
    + apply IH.
Qed.

Lemma wrap_lines_opens (lines : list str) :
  startswith (u "<p>") (wrap_lines lines) = true.
Proof.
  unfold wrap_lines.
  destruct (fold_left_append_prefix nonblank (fun line => u "<br>" ++ line)
              (tl lines) (u "<p>" ++ hd [] lines)) as [y Hy].
  rewrite Hy, <- !app_assoc. apply startswith_refl_app.
Qed.

Lemma wrap_paragraphs_opens (paragraphs : list str) (acc : str) :
  acc = [] \/ startswith (u "<p>") acc = true ->
  let r := fold_left (fun acc p => if nonblank p
                                   then acc ++ wrap_lines (split [LF] p) else acc)
                     paragraphs acc in
  r = [] \/ startswith (u "<p>") r = true.
Proof.
  revert acc. induction paragraphs as [|p ps IH]; intros acc H; [exact H|].
  simpl. destruct (nonblank p); [|apply IH; exact H].
  apply IH. right. destruct H as [-> | H].
  - apply wrap_lines_opens.
  - apply startswith_app_l. exact H.
Qed.

(** X17. After the re-wrapping step the content always starts with an
    angle bracket, whatever it was before. *)
Theorem ensure_markup_opens (content : str) :
  startswith (u "<") (ensure_markup content) = true.
Proof.
  unfold ensure_markup. destruct (startswith (u "<") content) eqn:E; [exact E|].
  pose proof (wrap_paragraphs_opens (split [LF; LF] content) [] (or_introl eq_refl)) as H.
  cbv zeta in H. fold (wrap_paragraphs content) in H.
  destruct (wrap_paragraphs content) as [|c s] eqn:Ew; [reflexivity|].
  destruct H as [H|H]; [discriminate|].
  apply (startswith_shorter (u "<") (u "p>")). exact H.
Qed.

(** a scan whose replacements are no longer than what they replace
    does not lengthen the text *)
Lemma scan_length (m : str -> option (str * nat)) :
  (forall t r n, m t = Some (r, n) ->
     (List.length r <= n)%nat /\ (n <= List.length t)%nat) ->
  forall s k,
    (List.length (scan m k s) + Nat.min k (List.length s) <= List.length s)%nat.
Proof.
  intros Hm. induction s as [|c t IH]; intros k; [simpl; lia|].
  simpl scan. destruct k as [|k].
  - destruct (m (c :: t)) as [[r [|n]]|] eqn:E.
    + specialize (IH O). simpl in *. lia.
    + destruct (Hm _ _ _ E) as [H1 H2]. specialize (IH n).
      rewrite length_app. simpl in *. lia.
    + specialize (IH O). simpl in *. lia.
  - specialize (IH k). simpl. lia.
Qed.

Lemma spaced_at_bounds (open close r t x : str) (n : nat) :
  (List.length r <= List.length open + List.length close)%nat ->
  Html.spaced_at open close r t = Some (x, n) ->
  (List.length x <= n)%nat /\ (n <= List.length t)%nat.
Proof.
  intros Hr H. unfold Html.spaced_at in H.
  destruct (startswith open t) eqn:E1; [|discriminate].
  destruct (startswith close _) eqn:E2; [|discriminate].
  injection H as <- <-.
  apply startswith_length in E1. apply startswith_length in E2.
  rewrite !length_skipn in E2.
  pose proof (span_len_le isspace (skipn (List.length open) t)) as Hs.
  rewrite length_skipn in Hs. lia.
Qed.

(** X18. The clean-up of the content never makes it longer. *)
Theorem normalize_never_longer (content : str) :
  (List.length (normalize content) <= List.length content)%nat.
Proof.
  assert (H1 : (List.length (Html.sub_double_br content) <= List.length content)%nat).
  { unfold Html.sub_double_br.
    pose proof (scan_length (Html.spaced_at (u "<br>") (u "<br>") (u "<br>"))) as H.
    specialize (H (fun t r n E =>
                     spaced_at_bounds (u "<br>") (u "<br>") (u "<br>") t r n
                       ltac:(vm_compute; lia) E)
                  content O). simpl in H. lia. }
  assert (H2 : forall s, (List.length (Html.sub_empty_p s) <= List.length s)%nat).
  { intros s. unfold Html.sub_empty_p.
    pose proof (scan_length (Html.spaced_at (u "<p>") (u "</p>") [])) as H.
    specialize (H (fun t r n E =>
                     spaced_at_bounds (u "<p>") (u "</p>") [] t r n
                       ltac:(vm_compute; lia) E)
                  s O). simpl in H. lia. }
  assert (H3 : forall s, (List.length (Html.sub_br_p s) <= List.length s)%nat).
  { intros s. unfold Html.sub_br_p, replace.
    match goal with
    | |- context [scan ?m O s] => pose proof (scan_length m) as H
    end.
    assert (Hm : forall t r n,
               (if startswith (u "<p><br></p>") t
                then Some (u "<p></p>", List.length (u "<p><br></p>")) else None)
               = Some (r, n) ->
               (List.length r <= n)%nat /\ (n <= List.length t)%nat).
    { intros t r n E. destruct (startswith (u "<p><br></p>") t) eqn:Es; [|discriminate].
      injection E as <- <-. apply startswith_length in Es.
      split; [vm_compute; lia|exact Es]. }
    specialize (H Hm s O). rewrite Nat.min_0_l, Nat.add_0_r in H. exact H. }
  unfold normalize.
  specialize (H2 (Html.sub_double_br content)).
  specialize (H3 (Html.sub_empty_p (Html.sub_double_br content))). lia.
Qed.

(** ** The channel name of a link *)

Lemma split_go_skip (sep l b cur : str) :
  split_go sep (List.length l) cur (l ++ b) = split_go sep O cur b.
Proof. induction l as [|x l IH]; [reflexivity|exact IH]. Qed.

Lemma split_go_step (sep cur : str) (x : char) (t : str) :
  split_go sep O cur (x :: t) =
  if startswith sep (x :: t)
  then rev cur :: split_go sep (pred (List.length sep)) [] t
  else split_go sep O (x :: cur) t.
Proof. reflexivity. Qed.

Lemma split_at_first (sep a b cur : str) :
  sep <> [] -> no_start sep a (sep ++ b) ->
  split_go sep O cur (a ++ sep ++ b) = (rev cur ++ a) :: split_go sep O [] b.
Proof.
  intros Hsep. revert cur. induction a as [|x a IH]; intros cur H.
  - destruct sep as [|c sep']; [contradiction|].
    change ([] ++ (c :: sep') ++ b) with (c :: (sep' ++ b)).
    rewrite split_go_step.
    change (c :: sep' ++ b) with ((c :: sep') ++ b).
    rewrite startswith_refl_app.
    change (pred (List.length (c :: sep'))) with (List.length sep').
    rewrite split_go_skip, app_nil_r. reflexivity.
  - destruct H as [H0 H]. change ((x :: a) ++ sep ++ b) with (x :: a ++ sep ++ b).
    rewrite split_go_step, H0, (IH (x :: cur) H). simpl.
    rewrite <- app_assoc. reflexivity.
Qed.

Lemma hd_split_go (sep cur s : str) :
  hd [] (split_go sep O cur s) = rev cur ++ hd [] (split_go sep O [] s).
Proof.
  revert cur. induction s as [|x t IH]; intros cur.
  - simpl. rewrite app_nil_r. reflexivity.
  - rewrite !split_go_step. destruct (startswith sep (x :: t)).
    + simpl. rewrite app_nil_r. reflexivity.
    + rewrite (IH (x :: cur)), (IH [x]). simpl. rewrite <- app_assoc. reflexivity.
Qed.

Lemma hd_split_keeps (sep a b cur : str) :
  no_start sep a b ->
  hd [] (split_go sep O cur (a ++ b)) = rev cur ++ a ++ hd [] (split_go sep O [] b).
Proof.
  revert cur. induction a as [|x a IH]; intros cur H.
  - apply hd_split_go.
  - destruct H as [H0 H]. change ((x :: a) ++ b) with (x :: a ++ b).
    rewrite split_go_step, H0, (IH (x :: cur) H). simpl.
    rewrite <- app_assoc. reflexivity.
Qed.

Lemma no_start_name_end (name : str) :
  lacks DOT name -> no_start (u "t.me/") name [].
Proof.
  change (u "t.me/") with [116%N; DOT; 109%N; 101%N; SLASH].
  induction 1 as [|x n' Hx Hn IH]; [exact I|].
  split; [|exact IH].
  rewrite app_nil_r. destruct n' as [|y n''].
  - simpl. apply andb_false_r.
  - inversion Hn as [|? ? Hy _]; subst.
    cbn [startswith]. apply N.eqb_neq in Hy. rewrite N.eqb_sym in Hy.
    rewrite Hy. apply andb_false_r.
Qed.

Lemma no_start_name_slash (name more : str) :
  lacks DOT name -> no_start (u "t.me/") (name ++ [SLASH]) more.
Proof.
  change (u "t.me/") with [116%N; DOT; 109%N; 101%N; SLASH].
  induction 1 as [|x n' Hx Hn IH].
  - split; [reflexivity|exact I].
  - split; [|exact IH]. destruct n' as [|y n''].
    + cbn [app startswith]. change (DOT =? SLASH)%N with false. apply andb_false_r.
    + inversion Hn as [|? ? Hy _]; subst.
      cbn [app startswith]. apply N.eqb_neq in Hy. rewrite N.eqb_sym in Hy.
      rewrite Hy. apply andb_false_r.
Qed.

(** X19. The channel name taken from a link never contains a slash. *)
Theorem chat_name_has_no_slash
    (link : option str) : lacks SLASH (_extract_chat_name link).
Proof.
  unfold _extract_chat_name. destruct (truthy link) as [l|]; [|constructor].
  destruct (negb (contains (u "t.me/") l)); [constructor|].
  destruct (split (u "t.me/") l) as [|p0 [|part rest]]; try constructor.
  pose proof (split_char_pieces SLASH part [] ltac:(constructor)) as H.
  change (u "/") with [SLASH]. unfold split.
  destruct (split_go [SLASH] O [] part); [constructor|].
  inversion H; assumption.
Qed.

(** X20. For a link https://t.me/<name>, alone or followed by a slash
    and anything, where <name> has neither a slash nor a dot, the channel
    name is <name>. *)
Theorem chat_name_of_link (name rest : str) :
  lacks SLASH name -> lacks DOT name ->
  (rest = [] \/ exists more, rest = SLASH :: more) ->
  _extract_chat_name (Some (u "https://t.me/" ++ name ++ rest)) = name.
Proof.
  intros Hslash Hdot Hrest.
  change (u "https://t.me/") with (u "https://" ++ u "t.me/").
  rewrite <- app_assoc. set (tail := name ++ rest).
  unfold _extract_chat_name.
  change (truthy (Some (u "https://" ++ u "t.me/" ++ tail)))
    with (Some (u "https://" ++ u "t.me/" ++ tail)).
  cbv beta iota. rewrite contains_middle. cbn [negb]. unfold split.
  rewrite (split_at_first (u "t.me/") (u "https://") tail []).
  - pose proof (split_go_nonempty (u "t.me/") O [] tail) as Hne.
    destruct (split_go (u "t.me/") O [] tail) as [|part others] eqn:Es;
      [contradiction|].
    assert (Hpart : part = hd [] (split_go (u "t.me/") O [] tail))
      by (rewrite Es; reflexivity).
    change (u "/") with [SLASH]. subst tail.
    destruct Hrest as [-> | [more ->]].
    + rewrite (hd_split_keeps _ name [] [] (no_start_name_end name Hdot)) in Hpart.
      simpl in Hpart. rewrite app_nil_r in Hpart. subst part.
      rewrite (split_char_whole SLASH name [] Hslash). reflexivity.
    + change (name ++ SLASH :: more) with (name ++ [SLASH] ++ more) in Hpart.
      rewrite app_assoc in Hpart.
      rewrite (hd_split_keeps _ (name ++ [SLASH]) more []
                 (no_start_name_slash name more Hdot)) in Hpart.
      simpl rev in Hpart. simpl app at 1 in Hpart. rewrite <- app_assoc in Hpart.
      subst part. change ([SLASH] ++ ?x) with (SLASH :: x).
      rewrite (split_char_app SLASH name [] _ Hslash). reflexivity.
  - vm_compute. discriminate.
  - vm_compute. repeat split.
Qed.

(** ** What a faulted build leaves behind *)

Section Frame.

Context {X : Type} (f : FeedEntry -> X).

Lemma keeps_bind {A B : Type} (m : M A) (k : A -> M B) :
  keeps f m -> (forall a, keeps f (k a)) -> keeps f (bindM m k).
Proof.
  intros Hm Hk st. unfold bindM. specialize (Hm st).
  destruct (m st) as [st1 [a|e]]; simpl in *; [|exact Hm].
  rewrite (Hk a st1). exact Hm.
Qed.

Lemma keeps_try {A : Type} (body : M A) (handler : exn -> M A) :
  keeps f body -> (forall e, keeps f (handler e)) -> keeps f (try_except body handler).
Proof.
  intros Hb Hh st. unfold try_except. specialize (Hb st).
  destruct (body st) as [st1 [a|e]]; simpl in *; [exact Hb|].
  rewrite (Hh e st1). exact Hb.
Qed.

Lemma keeps_pure {A : Type} (m : M A) :
  (forall st, st_fe (fst (m st)) = st_fe st) -> keeps f m.
Proof. intros H st. rewrite H. reflexivity. Qed.

Lemma keeps_modify (g : FeedEntry -> FeedEntry) :
  (forall fe, f (g fe) = f fe) -> keeps f (modify_fe g).
Proof. intros H st. simpl. apply H. Qed.

End Frame.

Section FaultedBuild.

Variable regex : Type.
Variable re_compile : str -> option regex.
Variable re_match : regex -> str -> option match_obj.
Variable title_config : result (option (list pattern_info)).
Variable markdown : str -> result str.
Variable HOST : str.
Variable PORT : Z.
Variable get_rule_media_path : Z -> result str.
Variable DEFAULT_TIMEZONE : Z.
Variable clock : nat -> Z.
Variable published_ok : datetime -> bool.
Variable fromisoformat : str -> option datetime.

#[local] Abbreviation build' :=
  (build_entry regex re_compile re_match title_config markdown HOST PORT
     get_rule_media_path DEFAULT_TIMEZONE clock published_ok fromisoformat).
#[local] Abbreviation add_one' :=
  (add_one regex re_compile re_match title_config markdown HOST PORT
     get_rule_media_path DEFAULT_TIMEZONE clock published_ok fromisoformat).
#[local] Abbreviation generate' :=
  (generate_feed_from_entries regex re_compile re_match title_config markdown
     HOST PORT get_rule_media_path DEFAULT_TIMEZONE clock published_ok fromisoformat).

Ltac keeps_prim :=
  first [ apply keeps_modify; intros []; reflexivity
        | apply keeps_pure; intros []; reflexivity ].

Lemma keeps_embed_media (rule_id : Z) (m : Media) :
  keeps id_and_title (embed_media HOST PORT get_rule_media_path rule_id m).
Proof.
  unfold embed_media. apply keeps_bind; [keeps_prim|intros t].
  destruct (startswith (u "image/") t).
  - apply keeps_try; [|intros e; keeps_prim].
    apply keeps_bind; [keeps_prim|intros _; keeps_prim].
  - destruct (startswith (u "video/") t); [keeps_prim|].
    destruct (startswith (u "audio/") t); keeps_prim.
Qed.

Lemma keeps_embed_all (rule_id : Z) (media : list Media) :
  keeps id_and_title (embed_all HOST PORT get_rule_media_path rule_id media).
Proof.
  induction media as [|m media IH]; simpl; [keeps_prim|].
  apply keeps_bind; [apply keeps_embed_media|intros _; exact IH].
Qed.

Lemma keeps_attach_all (rule_id : Z) (media : list Media) :
  keeps id_and_title (attach_all HOST PORT rule_id media).
Proof.
  induction media as [|m media IH]; simpl; [keeps_prim|].
  apply keeps_bind; [|intros _; exact IH].
  unfold attach_media. apply keeps_try; [|intros e; keeps_prim].
  apply keeps_bind; [keeps_prim|intros t].
  apply keeps_bind; [keeps_prim|intros c].
  apply keeps_bind; [destruct (_ && _); keeps_prim|intros _].
  apply keeps_bind; [keeps_prim|intros _]. keeps_prim.
Qed.

Lemma keeps_set_published_time (published : str) :
  keeps id_and_title
    (set_published_time DEFAULT_TIMEZONE clock published_ok fromisoformat published).
Proof.
  assert (Hp : forall dt, keeps id_and_title (publish published_ok dt)).
  { intros dt. unfold publish. destruct (published_ok dt); keeps_prim. }
  unfold set_published_time. apply keeps_try.
  - apply keeps_bind; [keeps_prim|intros dt; apply Hp].
  - intros e. destruct e; try keeps_prim.
    apply keeps_bind; [keeps_prim|intros k; apply Hp].
Qed.

Lemma build_keeps_id_and_title (entry : Entry) (st : build_state) :
  id_and_title (st_fe (fst (build' entry st))) =
  (py_or (e_id entry) (e_message_id entry),
   Some (fst (title_and_text regex re_compile re_match title_config entry))).
Proof.
  unfold build_entry, bindM at 1. rewrite start_entry_exact.
  match goal with
  | |- id_and_title (st_fe (fst (?m ?st1))) = _ =>
      assert (H : keeps id_and_title m); [|rewrite (H st1); reflexivity]
  end.
  apply keeps_bind; [apply keeps_embed_all|intros _].
  apply keeps_bind.
  { unfold fix_content. apply keeps_bind; [keeps_prim|intros c; keeps_prim]. }
  intros _. apply keeps_bind; [apply keeps_attach_all|intros _].
  apply keeps_bind.
  { unfold store_content. apply keeps_bind; [keeps_prim|intros c].
    apply keeps_bind; [keeps_prim|intros _; keeps_prim]. }
  intros _. apply keeps_bind; [apply keeps_set_published_time|intros _].
  unfold set_author_and_link. apply keeps_bind.
  - destruct (truthy (e_author entry)); keeps_prim.
  - intros _. destruct (truthy (e_link entry)); keeps_prim.
Qed.

Lemma add_one_ids (fg : Feed) (e : Entry) :
  map id_and_title (fg_entries (add_one' fg e)) =
  (py_or (e_id e) (e_message_id e),
   Some (fst (title_and_text regex re_compile re_match title_config e)))
  :: map id_and_title (fg_entries fg).
Proof.
  unfold add_one.
  pose proof (build_keeps_id_and_title e
                {| st_fe := empty_entry; st_content := [];
                   st_log := fg_log fg; st_clock := fg_clock fg |}) as H.
  destruct (build_entry _ _ _ _ _ _ _ _ _ _ _ _ _ _) as [st [[]|x]];
    simpl in H; simpl fg_entries; simpl map;
    rewrite H; reflexivity.
Qed.

Lemma fold_add_one_ids (entries : list Entry) (fg : Feed) :
  map id_and_title (fg_entries (fold_left add_one' entries fg)) =
  rev (map (fun e => (py_or (e_id e) (e_message_id e),
                      Some (fst (title_and_text regex re_compile re_match
                                   title_config e))))
           entries)
  ++ map id_and_title (fg_entries fg).
Proof.
  revert fg. induction entries as [|e entries IH]; intros fg.
  - reflexivity.
  - simpl fold_left. rewrite IH, add_one_ids. simpl map. simpl rev.
    rewrite <- app_assoc. reflexivity.
Qed.

(** X21. Every input entry, whether its build returns or raises,
    leaves one feed entry that carries its id and its extracted title;
    the feed entries are in the reverse of the input order, the entry
    added last being the first of the feed. *)
Theorem feed_keeps_ids_in_order (rule_id : Z) (entries : list Entry) :
  map id_and_title (fg_entries (generate' rule_id entries)) =
  rev (map (fun e => (py_or (e_id e) (e_message_id e),
                      Some (fst (title_and_text regex re_compile re_match
                                   title_config e))))
           entries).
Proof.
  unfold generate_feed_from_entries. rewrite fold_add_one_ids.
  destruct entries; simpl fg_entries; simpl (map id_and_title []);
    rewrite app_nil_r; reflexivity.
Qed.

End FaultedBuild.

(** ** The test feed when a timestamp is rejected *)

Section TestFeedFault.

Variable HOST : str.
Variable PORT : Z.
Variable clock : nat -> Z.
Variable local_offset : Z.
Variable published_ok : datetime -> bool.
Variable strftime : datetime -> str.

#[local] Abbreviation now := (now_naive clock local_offset).

(** X22. Nothing in [generate_test_feed] catches what the feed entry
    raises for a timestamp: when one of the three timestamps is
    rejected, the whole call raises [ValueError] and no feed is
    returned. *)
Theorem test_feed_raises (rule_id : Z) :
  published_ok (sub_hours (now 1%nat) 1) &&
  published_ok (sub_hours (now 3%nat) 2) &&
  published_ok (sub_hours (now 5%nat) 3) = false ->
  generate_test_feed HOST PORT clock local_offset published_ok strftime rule_id
    = Raise ValueError.
Proof.
  intros H. unfold generate_test_feed. simpl test_entries. unfold test_entry.
  destruct (published_ok (sub_hours (now 1%nat) 1)); [|reflexivity].
  destruct (published_ok (sub_hours (now 3%nat) 2)); [|reflexivity].
  destruct (published_ok (sub_hours (now 5%nat) 3)); [discriminate|reflexivity].
Qed.

End TestFeedFault.

(* ------------------------------------------------------------------ *)
(** * The properties on the sample environment *)

Lemma extract_never_aborts_witness :
  Sample.extract (Ok (Some [ {| pi_pattern := Some (u "(");
                                pi_description := Some (u "broken") |} ]))
    (Some (u "hello")) = ([], u "hello").
Proof.
  apply (proj2 (proj2 (extract_never_aborts Sample.regex Sample.re_compile
                         Sample.re_match _)) (u "hello") ReError).
  vm_compute. reflexivity.
Defined.

Lemma extract_first_match_witness :
  Sample.extract (Ok (Some [Sample.bracket; Sample.bold; Sample.broken]))
    (Some Sample.busy_headline)
  = (u "Breaking now: Market Update", u "Prices rose today.") /\
  let '(title, remainder) :=
    Sample.extract (Ok (Some ([Sample.bracket] ++ Sample.bold :: [Sample.broken])))
      (Some Sample.busy_headline) in
  title = strip (replace [LF] [SP] (Re.sub_link (replace [Re.STAR] [] Sample.busy_group))) /\
  lacks Re.STAR title /\ lacks LF title /\ trimmed title /\
  (exists ws, Forall (fun c => isspace c = true) ws /\
              Sample.busy_headline = firstn 50 Sample.busy_headline ++ ws ++ remainder) /\
  match remainder with c :: _ => isspace c = false | [] => True end.
Proof.
  split; [vm_compute; reflexivity|].
  apply (extract_first_match Sample.regex Sample.re_compile Sample.re_match
           Sample.busy_headline [Sample.bracket] [Sample.broken] Sample.bold
           Sample.busy_match (Some Sample.busy_group)).
  - discriminate.
  - constructor; [|constructor].
    exists Sample.bracket_pattern, (u "bracket title"), Sample.BracketTitle.
    repeat split.
  - exists Sample.bold_pattern, (u "bold title"), Sample.BoldTitle.
    repeat split.
  - reflexivity.
Defined.



Lemma media_fragments_keep_body_nonempty_witness :
  exists st1 st2,
    start_entry Sample.regex Sample.re_compile Sample.re_match Sample.title_config
      Sample.markdown Sample.entry Sample.st0 = (st1, Ok tt) /\
    embed_all Sample.HOST Sample.PORT Sample.get_rule_media_path
      (e_rule_id Sample.entry) (e_media Sample.entry) st1 = (st2, Ok tt) /\
    (e_media Sample.entry <> [] ->
       st_content st2 <> [] /\
       ensure_nonempty (e_media Sample.entry) (st_content st2)
         = (st_content st2, false)) /\
    snd (ensure_nonempty (e_media Sample.entry) (st_content st2)) = false /\
    (fst (ensure_nonempty (e_media Sample.entry) (st_content st2)) <> st_content st2 ->
       e_media Sample.entry = [] /\ st_content st1 = []).
Proof.
  apply (media_fragments_keep_body_nonempty Sample.regex Sample.re_compile
           Sample.re_match Sample.title_config Sample.markdown Sample.HOST
           Sample.PORT Sample.get_rule_media_path Sample.entry Sample.st0).
  repeat constructor. exists (u "image/png"). split; [reflexivity|].
  intros _. eexists. reflexivity.
Defined.


(** C1. Two entries, the first with a media object that has no type: its
    build raises in the first pass over the media, after
    [fg.add_entry()], the id and the title; the fault is logged and the
    loop goes on, but the feed holds the half-built entry, without
    content and without published time, beside the second one (which,
    added later, comes first in the feed). *)
Theorem faulted_entry_stays_in_feed :
  let fg := Sample.feed_of [Sample.untyped_entry; Sample.entry] in
  fg_log fg = [LogEntryError AttributeError] /\
  exists fe1 fe2,
    fg_entries fg = [fe2; fe1] /\
    fe_id fe1 = Some (u "43") /\ fe_title fe1 = Some (u "hello") /\
    fe_content fe1 = None /\ fe_description fe1 = None /\
    fe_published fe1 = None /\
    fe_id fe2 = Some (u "42").
Proof.
  split; [vm_compute; reflexivity|].
  do 2 eexists. split; [vm_compute; reflexivity|].
  repeat split.
Qed.

(** C9. A media object without the attribute [size]: the log line
    before [fe.enclosure] reads [media.size] and raises, so the entry
    gets no enclosure at all; a media object without the attribute
    [type] stops the entry in the first pass, before any enclosure. *)
Theorem absent_attribute_gives_no_enclosure :
  (let fg := Sample.feed_of [Sample.unsized_entry] in
   fg_log fg = [LogEnclosureError AttributeError] /\
   exists fe, fg_entries fg = [fe] /\ fe_enclosures fe = []) /\
  (let fg := Sample.feed_of [Sample.untyped_entry] in
   fg_log fg = [LogEntryError AttributeError] /\
   exists fe, fg_entries fg = [fe] /\ fe_enclosures fe = []).
Proof.
  split; (split; [vm_compute; reflexivity|]);
    eexists; (split; [vm_compute; reflexivity|reflexivity]).
Qed.

(** C3. An entry whose published string is 2024-01-01T00:00:00, built
    with a feed library that takes aware datetimes only: the string
    parses to that instant, a naive datetime; [fe.published] rejects it
    inside the same [try], and the [except ValueError] branch stamps the
    entry with the clock reading (2026-11-03T12:00:00 in the
    configured zone) instead.  The string not-a-date does not parse and
    is replaced in the same way, without an exception. *)
Theorem naive_timestamp_is_replaced_by_now :
  Sample.fromisoformat (u "2024-01-01T00:00:00")
    = Some (of_fields 2024 1 1 0 0 0 0 None) /\
  Sample.fromisoformat (u "not-a-date") = None /\
  (exists st',
     build_entry Sample.regex Sample.re_compile Sample.re_match Sample.title_config
       Sample.markdown Sample.HOST Sample.PORT Sample.get_rule_media_path 0
       Sample.clock aware Sample.fromisoformat Sample.entry Sample.st0
       = (st', Ok tt) /\
     fe_published (st_fe st') = Some (of_fields 2026 11 3 12 0 0 0 (Some 0)) /\
     fe_published (st_fe st') <> Some (of_fields 2024 1 1 0 0 0 0 None) /\
     st_log st' = [] /\ st_clock st' = 1%nat) /\
  (exists st',
     build_entry Sample.regex Sample.re_compile Sample.re_match Sample.title_config
       Sample.markdown Sample.HOST Sample.PORT Sample.get_rule_media_path 0
       Sample.clock aware Sample.fromisoformat Sample.undated_entry Sample.st0
       = (st', Ok tt) /\
     fe_published (st_fe st') = Some (of_fields 2026 11 3 12 0 0 0 (Some 0)) /\
     st_log st' = [] /\ st_clock st' = 1%nat).
Proof.
  split; [vm_compute; reflexivity|].
  split; [vm_compute; reflexivity|].
  split.
  - eexists. split; [vm_compute; reflexivity|].
    split; [vm_compute; reflexivity|].
    split; [vm_compute; discriminate|]. split; reflexivity.
  - eexists. split; [vm_compute; reflexivity|].
    split; [vm_compute; reflexivity|]. split; reflexivity.
Qed.


(* ------------------------------------------------------------------ *)
(** * The further properties on the sample environment *)

Lemma render_fallback_is_one_line_witness :
  lacks LF (convert_markdown_to_html Sample.failing_markdown (u "a")) /\
  startswith (u "<p>") (convert_markdown_to_html Sample.failing_markdown (u "a")) = true /\
  ends_with (u "</p>") (convert_markdown_to_html Sample.failing_markdown (u "a")).
Proof.
  apply (render_fallback_is_one_line Sample.failing_markdown (u "a") RuntimeError).
  - vm_compute. discriminate.
  - reflexivity.
Defined.

Lemma full_media_url_of_path_witness :
  full_media_url Sample.HOST Sample.PORT 7 Sample.image =
  base_url Sample.HOST Sample.PORT ++ u "/media/" ++ str_of_Z 7 ++ u "/" ++ u "photo.png".
Proof.
  apply (full_media_url_of_path Sample.HOST Sample.PORT 7 Sample.image
           (u "store/7") (u "photo.png")).
  - vm_compute. repeat constructor; discriminate.
  - left. reflexivity.
Defined.

Lemma build_entry_result_witness :
  exists st',
    build_entry Sample.regex Sample.re_compile Sample.re_match Sample.title_config
      Sample.markdown Sample.HOST Sample.PORT Sample.get_rule_media_path 0
      Sample.clock Sample.aware_only Sample.fromisoformat Sample.zoned_entry
      (mk_state empty_entry [] [] 0)
      = (st', Ok tt) /\
    st_fe st' =
      built_entry Sample.regex Sample.re_compile Sample.re_match Sample.title_config
        Sample.markdown Sample.HOST Sample.PORT Sample.get_rule_media_path 0
        Sample.clock Sample.aware_only Sample.fromisoformat Sample.zoned_entry 0 /\
    fe_content (st_fe st') = fe_description (st_fe st') /\
    st_content st' =
      body_of Sample.regex Sample.re_compile Sample.re_match Sample.title_config
        Sample.markdown Sample.HOST Sample.PORT Sample.get_rule_media_path
        Sample.zoned_entry /\
    st_log st' = [] ++ built_log Sample.get_rule_media_path Sample.zoned_entry /\
    (st_clock st' = 0%nat \/ st_clock st' = 1%nat).
Proof.
  apply (build_entry_result Sample.regex Sample.re_compile Sample.re_match
           Sample.title_config Sample.markdown Sample.HOST Sample.PORT
           Sample.get_rule_media_path 0 Sample.clock Sample.aware_only
           Sample.fromisoformat Sample.zoned_entry [] [] 0%nat).
  - repeat constructor. discriminate.
  - vm_compute. reflexivity.
Defined.

Lemma feed_of_buildable_entries_witness :
  fg_entries (Sample.feed_of [Sample.zoned_entry; Sample.blank_entry]) =
    rev (built_entries Sample.regex Sample.re_compile Sample.re_match
           Sample.title_config Sample.markdown Sample.HOST Sample.PORT
           Sample.get_rule_media_path 0 Sample.clock Sample.aware_only
           Sample.fromisoformat [Sample.zoned_entry; Sample.blank_entry] 0) /\
  fg_log (Sample.feed_of [Sample.zoned_entry; Sample.blank_entry]) =
    List.concat (map (built_log Sample.get_rule_media_path)
                     [Sample.zoned_entry; Sample.blank_entry]).
Proof.
  apply (feed_of_buildable_entries Sample.regex Sample.re_compile Sample.re_match
           Sample.title_config Sample.markdown Sample.HOST Sample.PORT
           Sample.get_rule_media_path 0 Sample.clock Sample.aware_only
           Sample.fromisoformat 7 [Sample.zoned_entry; Sample.blank_entry]).
  repeat constructor; try discriminate; intros k; vm_compute; reflexivity.
Defined.

Lemma empty_entry_gets_placeholder_witness :
  exists st',
    build_entry Sample.regex Sample.re_compile Sample.re_match Sample.title_config
      Sample.markdown Sample.HOST Sample.PORT Sample.get_rule_media_path 0
      Sample.clock Sample.aware_only Sample.fromisoformat Sample.blank_entry
      (mk_state empty_entry [] [] 0) = (st', Ok tt) /\
    fe_content (st_fe st') = Some Fragment.no_text /\
    fe_description (st_fe st') = Some Fragment.no_text /\
    fe_enclosures (st_fe st') = [].
Proof.
  apply (empty_entry_gets_placeholder Sample.regex Sample.re_compile Sample.re_match
           Sample.title_config Sample.markdown Sample.HOST Sample.PORT
           Sample.get_rule_media_path 0 Sample.clock Sample.aware_only
           Sample.fromisoformat Sample.blank_entry [] [] 0%nat);
    vm_compute; reflexivity.
Defined.

Lemma enclosures_of_built_entry_witness :
  exists st',
    build_entry Sample.regex Sample.re_compile Sample.re_match Sample.title_config
      Sample.markdown Sample.HOST Sample.PORT Sample.get_rule_media_path 0
      Sample.clock Sample.aware_only Sample.fromisoformat Sample.zoned_entry
      (mk_state empty_entry [] [] 0) = (st', Ok tt) /\
    Forall2 (fun m v =>
               enc_url v = full_media_url Sample.HOST Sample.PORT
                             (e_rule_id Sample.zoned_entry) m /\
               (exists n, m_size m = Some n /\ enc_length v = str_of_Z n) /\
               m_type m = Some (enc_type v))
            (e_media Sample.zoned_entry) (fe_enclosures (st_fe st')).
Proof.
  apply (enclosures_of_built_entry Sample.regex Sample.re_compile Sample.re_match
           Sample.title_config Sample.markdown Sample.HOST Sample.PORT
           Sample.get_rule_media_path 0 Sample.clock Sample.aware_only
           Sample.fromisoformat Sample.zoned_entry [] [] 0%nat).
  - repeat constructor; discriminate.
  - vm_compute. reflexivity.
Defined.

Lemma rejected_timestamp_falls_back_witness :
  exists st',
    build_entry Sample.regex Sample.re_compile Sample.re_match Sample.title_config
      Sample.markdown Sample.HOST Sample.PORT Sample.get_rule_media_path 0
      Sample.clock Sample.aware_only Sample.fromisoformat Sample.entry
      (mk_state empty_entry [] [] 0) = (st', Ok tt) /\
    fe_published (st_fe st') = Some (now_in Sample.clock 0 0) /\
    st_clock st' = 1%nat.
Proof.
  apply (rejected_timestamp_falls_back Sample.regex Sample.re_compile Sample.re_match
           Sample.title_config Sample.markdown Sample.HOST Sample.PORT
           Sample.get_rule_media_path 0 Sample.clock Sample.aware_only
           Sample.fromisoformat
           Sample.entry [] [] 0%nat (of_fields 2024 1 1 0 0 0 0 None)).
  - repeat constructor. discriminate.
  - vm_compute. reflexivity.
  - reflexivity.
  - reflexivity.
Defined.

Lemma first_pass_embeds_every_url_witness :
  exists st',
    embed_all Sample.HOST Sample.PORT Sample.get_rule_media_path 7 [Sample.image]
      Sample.st0 = (st', Ok tt) /\
    Forall (fun m => contains (full_media_url Sample.HOST Sample.PORT 7 m)
                              (st_content st') = true) [Sample.image].
Proof.
  apply (first_pass_embeds_every_url Sample.HOST Sample.PORT
           Sample.get_rule_media_path 7 [Sample.image] Sample.st0).
  repeat constructor. exists (u "image/png"). split; [reflexivity|].
  intros _. eexists. reflexivity.
Defined.

Lemma chat_name_of_link_witness :
  _extract_chat_name (Some (u "https://t.me/" ++ u "news" ++ u "/42")) = u "news".
Proof.
  apply (chat_name_of_link (u "news") (u "/42")).
  - vm_compute. repeat constructor; discriminate.
  - vm_compute. repeat constructor; discriminate.
  - right. exists (u "42"). reflexivity.
Defined.

Lemma test_feed_raises_witness :
  generate_test_feed Sample.HOST Sample.PORT Sample.clock 0 Sample.aware_only
    Sample.strftime 7 = Raise ValueError.
Proof.
  apply (test_feed_raises Sample.HOST Sample.PORT Sample.clock 0 Sample.aware_only
           Sample.strftime 7).
  reflexivity.
Defined.
